(** * c3-node-proxy: a shallow embedding of the proxy's state engine

    The development models the Go sources of the proxy as functions over an
    explicit world: the three tenant-keyed tables of [ProxyServer]
    (server.go), the workload cache with its refresh task, the least-busy
    selection and the in-flight counter (loadbalancer.go) and the request
    handlers [ProxyHandler] and [HandleProxyRequest].

    Conventions.
    - Go's [int] is the 64-bit two's-complement integer: values are [Z] in
      the range of [int64] and arithmetic wraps through [wrap64].
    - A Go slice that may be [nil] is an [option (list _)]: [None] is the nil
      slice, [Some []] the empty non-nil one.
    - Go maps are stdpp [gmap]s; where the source ranges over a map and the
      order is visible, the order is a parameter.
    - Effects are threaded through a state-and-panic monad [M].  The upstream
      listing API and the wall clock are oracles indexed by the number of
      calls made so far; a run-time panic (an out-of-range slice expression
      such as [apiKey[:8]] on a short key) is the result [Panic], which keeps
      the world reached so far; [deferred] runs a deferred call on both the
      normal and the panicking exit.
    - Lock operations, spawned goroutines, counter adjustments and outbound
      calls are recorded in [trace] (most recent first), so that ordering
      properties of a call are statable.
    - Calls are sequential: one call of a modelled function runs to
      completion without interference from other goroutines. *)

From Stdlib Require Import ZArith Lia Ascii String.
From stdpp Require Import base option list gmap strings pretty.

Local Open Scope Z_scope.

(** ** Go integers *)

Module GoInt.

Definition minInt : Z := - 2 ^ 63.
Definition maxInt : Z := 2 ^ 63 - 1.

(** Two's-complement wrap-around of 64-bit arithmetic. *)
Definition wrap64 (z : Z) : Z := (z + 2 ^ 63) mod 2 ^ 64 - 2 ^ 63.

Definition inRange (z : Z) : Prop := minInt ≤ z ≤ maxInt.

Definition add (a b : Z) : Z := wrap64 (a + b).
Definition neg (a : Z) : Z := wrap64 (- a).

End GoInt.

(** ** Data model *)

(** nil-able slices *)
Definition slice (A : Type) : Type := option (list A).

Definition elems {A : Type} (s : slice A) : list A := default [] s.

Record Workload : Type := mkWorkload {
  Created : Z;
  Expires : Z;
  Node : string;
  Running : bool;
  Status : string;
  Type_ : string;
  Workload_ : string;
  Tags : slice string
}.

(** The predicate [w.Running && w.Status == "running"] used throughout. *)
Definition isRunning (w : Workload) : bool :=
  Running w && bool_decide (Status w = "running").

(** [WorkloadCache]; the registry table holds pointers to these records, and
    [addr] is the pointer's identity.  [StopRefresh] is [None] for a nil
    channel, [Some false] for an open one and [Some true] for a closed one. *)
Record WorkloadCache : Type := mkCache {
  Workloads : slice Workload;
  LastFetch : Z;
  LastAccess : Z;
  StopRefresh : option bool;
  addr : nat
}.

Record ProxyServer : Type := mkServer {
  workloadCache : gmap string WorkloadCache;
  inFlightRequests : gmap string (gmap string Z);
  tagMappings : gmap string (gmap string (list string))
}.

Inductive LogLevel : Type := DEBUG | INFO | WARN | ERROR.

Inductive RWLock : Type := cacheLock | requestLock.

Inductive Event : Type :=
| EvLock (l : RWLock)
| EvUnlock (l : RWLock)
| EvRLock (l : RWLock)
| EvRUnlock (l : RWLock)
| EvGo (apiKey : string) (cache : nat)
| EvTrack (apiKey node : string) (delta : Z)
| EvDo (method url : string).

(** Result of one call of the upstream listing API ([fetchWorkloads]). *)
Inductive FetchResult : Type :=
| FetchOk (workloads : slice Workload)
| FetchErr (err : string).

Record World : Type := mkWorld {
  server : ProxyServer;
  logLevel : LogLevel;
  upstream : nat → string → FetchResult;
  clock : nat → Z;
  fetchCalls : nat;
  clockReads : nat;
  nextAddr : nat;
  trace : list Event
}.

Definition setServer (s : ProxyServer) (w : World) : World :=
  mkWorld s (logLevel w) (upstream w) (clock w) (fetchCalls w) (clockReads w)
          (nextAddr w) (trace w).

Definition setWorkloadCache (m : gmap string WorkloadCache) (s : ProxyServer)
  : ProxyServer :=
  mkServer m (inFlightRequests s) (tagMappings s).

Definition setInFlightRequests (m : gmap string (gmap string Z))
  (s : ProxyServer) : ProxyServer :=
  mkServer (workloadCache s) m (tagMappings s).

Definition setTagMappings (m : gmap string (gmap string (list string)))
  (s : ProxyServer) : ProxyServer :=
  mkServer (workloadCache s) (inFlightRequests s) m.

(** [NewProxyServer]: the three tables start empty. *)
Definition NewProxyServer : ProxyServer := mkServer ∅ ∅ ∅.

(** The world at start-up: [logLevel] is initialised to [INFO]. *)
Definition startWorld (up : nat → string → FetchResult) (ck : nat → Z) : World :=
  mkWorld NewProxyServer INFO up ck 0 0 0 [].

(** ** The monad *)

Inductive Res (A : Type) : Type :=
| Ok (a : A) (w : World)
| Panic (w : World).

Arguments Ok {A} a w.
Arguments Panic {A} w.

Definition M (A : Type) : Type := World → Res A.

Global Instance M_ret : MRet M := λ A a w, Ok a w.

Global Instance M_bind : MBind M := λ A B f m w,
  match m w with
  | Ok a w' => f a w'
  | Panic w' => Panic w'
  end.

Definition world_of {A : Type} (r : Res A) : World :=
  match r with Ok _ w => w | Panic w => w end.

Definition getS : M ProxyServer := λ w, Ok (server w) w.

Definition putS (s : ProxyServer) : M unit := λ w, Ok tt (setServer s w).

Definition getLogLevel : M LogLevel := λ w, Ok (logLevel w) w.

Definition emit (e : Event) : M unit := λ w,
  Ok tt (mkWorld (server w) (logLevel w) (upstream w) (clock w) (fetchCalls w)
                 (clockReads w) (nextAddr w) (e :: trace w)).

(** [time.Now()]: the next reading of the clock oracle, in nanoseconds. *)
Definition timeNow : M Z := λ w,
  Ok (clock w (clockReads w))
     (mkWorld (server w) (logLevel w) (upstream w) (clock w) (fetchCalls w)
              (S (clockReads w)) (nextAddr w) (trace w)).

(** Allocation of a fresh [WorkloadCache] pointer. *)
Definition freshAddr : M nat := λ w,
  Ok (nextAddr w)
     (mkWorld (server w) (logLevel w) (upstream w) (clock w) (fetchCalls w)
              (clockReads w) (S (nextAddr w)) (trace w)).

Definition panic {A : Type} : M A := λ w, Panic w.

(** Evaluation of the slice expression [apiKey[:8]], which the source passes
    to its logger: it panics when the key has fewer than 8 bytes. *)
Definition keyPrefix8 (apiKey : string) : M unit :=
  if (String.length apiKey <? 8)%nat then panic else mret tt.

(** [defer d] followed by [body]: [d] runs when [body] returns or panics. *)
Definition deferred {A : Type} (d : M unit) (body : M A) : M A := λ w,
  match body w with
  | Ok a w' =>
      match d w' with
      | Ok _ w'' => Ok a w''
      | Panic w'' => Panic w''
      end
  | Panic w' => Panic (world_of (d w'))
  end.

Definition Lock (l : RWLock) : M unit := emit (EvLock l).
Definition Unlock (l : RWLock) : M unit := emit (EvUnlock l).
Definition RLock (l : RWLock) : M unit := emit (EvRLock l).
Definition RUnlock (l : RWLock) : M unit := emit (EvRUnlock l).

(** ** loadbalancer.go: the in-flight counter *)

(** [p.inFlightRequests[apiKey][node]], reading 0 for a missing entry. *)
Definition countOf (s : ProxyServer) (apiKey node : string) : Z :=
  default 0 (inFlightRequests s !! apiKey ≫= λ m, m !! node).

(** [p.inFlightRequests[apiKey][node] = v]; the inner map exists at every
    call site. *)
Definition storeCount (apiKey node : string) (v : Z) : M unit :=
  s ← getS;
  putS (setInFlightRequests
          (<[apiKey := <[node := v]> (default ∅ (inFlightRequests s !! apiKey))]>
             (inFlightRequests s)) s).

Definition TrackRequest (apiKey node : string) (delta : Z) : M unit :=
  emit (EvTrack apiKey node delta);;
  Lock requestLock;;
  deferred (Unlock requestLock) (
    s ← getS;
    (if inFlightRequests s !! apiKey is None
     then putS (setInFlightRequests (<[apiKey := ∅]> (inFlightRequests s)) s)
     else mret tt);;
    s ← getS;
    let currentCount := countOf s apiKey node in
    if (delta <? 0) && (currentCount <=? 0) then
      storeCount apiKey node 0
    else if (delta <? 0) && (currentCount <? GoInt.neg delta) then
      storeCount apiKey node 0
    else
      storeCount apiKey node (GoInt.add currentCount delta);;
      s ← getS;
      if countOf s apiKey node <? 0 then storeCount apiKey node 0
      else mret tt).

(** ** The workload registry and its refresh task *)

(** Go functions returning [(T, error)]. *)
Inductive GoResult (A : Type) : Type :=
| Val (a : A)
| Err (msg : string).

Arguments Val {A} a.
Arguments Err {A} msg.

Definition second : Z := 1000000000.

(** The zero [time.Time] (January 1, year 1) on the clock's scale, Unix
    nanoseconds. *)
Definition zeroTime : Z := -62135596800 * second.

(** [time.Since(t) > d]: [time.Since] saturates at the bounds of [int64],
    which leaves the comparison with a threshold [d] inside the range of
    [int64] as it is on unbounded integers. *)
Definition sinceExceeds (now t d : Z) : bool := d <? now - t.

Definition setLastAccess (t : Z) (c : WorkloadCache) : WorkloadCache :=
  mkCache (Workloads c) (LastFetch c) t (StopRefresh c) (addr c).

(** Write through a [*WorkloadCache] held in the registry table. *)
Definition storeCache (apiKey : string) (c : WorkloadCache) : M unit :=
  s ← getS;
  putS (setWorkloadCache (<[apiKey := c]> (workloadCache s)) s).

(** Read through a [*WorkloadCache] obtained earlier from the table under
    [apiKey]: the record now in the table when that is still the same
    pointer, the record as last seen otherwise. *)
Definition deref (apiKey : string) (c : WorkloadCache) : M WorkloadCache :=
  s ← getS;
  mret (match workloadCache s !! apiKey with
        | Some c' => if decide (addr c' = addr c) then c' else c
        | None => c
        end).

Definition updateLastAccess (apiKey : string) : M unit :=
  Lock cacheLock;;
  deferred (Unlock cacheLock) (
    s ← getS;
    match workloadCache s !! apiKey with
    | Some cache => t ← timeNow; storeCache apiKey (setLastAccess t cache)
    | None => mret tt
    end).

(** The upstream call of [fetchWorkloads]: its outcome is the oracle's
    answer to this call. *)
Definition fetchWorkloads (apiKey : string) : M FetchResult := λ w,
  Ok (upstream w (fetchCalls w) apiKey)
     (mkWorld (server w) (logLevel w) (upstream w) (clock w) (S (fetchCalls w))
              (clockReads w) (nextAddr w) (trace w)).

(** The loop of [updateCache] over the fetched workloads: the set
    [newNodes], [runningCount] and [tagMap].  [runningCount] counts elements
    of a slice, whose length is an [int], so its increments do not wrap. *)
Definition addTags (node : string) (tags : list string)
  (tagMap : gmap string (list string)) : gmap string (list string) :=
  foldl (λ tm tag, <[tag := default [] (tm !! tag) ++ [node]]> tm) tagMap tags.

Definition scanStep (acc : gset string * Z * gmap string (list string))
  (w : Workload) : gset string * Z * gmap string (list string) :=
  if isRunning w then
    let '(newNodes, runningCount, tagMap) := acc in
    ({[Node w]} ∪ newNodes, runningCount + 1,
     addTags (Node w) (elems (Tags w)) tagMap)
  else acc.

Definition scanWorkloads (workloads : list Workload)
  : gset string * Z * gmap string (list string) :=
  foldl scanStep (∅, 0, ∅) workloads.

Definition runningNodes (workloads : list Workload) : list string :=
  Node <$> filter (λ w, isRunning w = true) workloads.

Definition updateCache (apiKey : string) (workloads : slice Workload) : M unit :=
  Lock cacheLock;;
  deferred (Unlock cacheLock) (
    s ← getS;
    match workloadCache s !! apiKey with
    | None => mret tt
    | Some cache =>
        let oldNodes : gset string :=
          list_to_set (runningNodes (elems (Workloads cache))) in
        let '(newNodes, runningCount, tagMap) :=
          scanWorkloads (elems workloads) in
        (* "New node added" / "Node removed" log lines *)
        (if decide (newNodes ⊆ oldNodes) then mret tt else keyPrefix8 apiKey);;
        (if decide (oldNodes ⊆ newNodes) then mret tt else keyPrefix8 apiKey);;
        (* workload status log lines *)
        (if Workloads cache is None then keyPrefix8 apiKey
         else if runningCount =? 0 then keyPrefix8 apiKey else mret tt);;
        t ← timeNow;
        storeCache apiKey
          (mkCache workloads t (LastAccess cache) (StopRefresh cache)
                   (addr cache));;
        s ← getS;
        putS (setTagMappings (<[apiKey := tagMap]> (tagMappings s)) s)
    end).

Definition startCacheRefresh (apiKey : string) : M unit :=
  Lock cacheLock;;
  s ← getS;
  match workloadCache s !! apiKey with
  | Some existingCache =>
      match StopRefresh existingCache with
      | Some _ =>
          t ← timeNow;
          storeCache apiKey (setLastAccess t existingCache);;
          Unlock cacheLock;;
          keyPrefix8 apiKey
      | None =>
          t ← timeNow;
          storeCache apiKey
            (mkCache (Workloads existingCache) (LastFetch existingCache) t
                     (Some false) (addr existingCache));;
          Unlock cacheLock;;
          keyPrefix8 apiKey;;
          emit (EvGo apiKey (addr existingCache))
      end
  | None =>
      a ← freshAddr;
      t ← timeNow;
      storeCache apiKey (mkCache None zeroTime t (Some false) a);;
      Unlock cacheLock;;
      keyPrefix8 apiKey;;
      emit (EvGo apiKey a)
  end.

Definition forceRefreshWorkloads (apiKey : string)
  : M (GoResult (slice Workload)) :=
  keyPrefix8 apiKey;;
  r ← fetchWorkloads apiKey;
  match r with
  | FetchErr e => mret (Err ("failed to fetch workloads: " +:+ e))
  | FetchOk workloads =>
      updateCache apiKey workloads;;
      RLock cacheLock;;
      s ← getS;
      RUnlock cacheLock;;
      (if workloadCache s !! apiKey is None then startCacheRefresh apiKey
       else mret tt);;
      mret (Val workloads)
  end.

(** One pass of the loop of the refresh goroutine, from its head to the
    point where it either returns or blocks in [select] on the ticker and
    the stop channel. *)
Inductive LoopStep : Type := Return | Select.

Definition hasActiveRequests (s : ProxyServer) (apiKey : string) : bool :=
  match inFlightRequests s !! apiKey with
  | Some apiKeyRequests =>
      bool_decide (map_Exists (λ _ count, 0 < count) apiKeyRequests)
  | None => false
  end.

Definition refreshIteration (apiKey : string) : M LoopStep :=
  RLock cacheLock;;
  s ← getS;
  match workloadCache s !! apiKey with
  | None =>
      RUnlock cacheLock;;
      keyPrefix8 apiKey;;
      mret Return
  | Some cache =>
      let lastAccess := LastAccess cache in
      RUnlock cacheLock;;
      RLock requestLock;;
      s ← getS;
      let active := hasActiveRequests s apiKey in
      RUnlock requestLock;;
      now ← timeNow;
      if sinceExceeds now lastAccess (180 * second) && negb active then
        keyPrefix8 apiKey;;
        Lock cacheLock;;
        s ← getS;
        match workloadCache s !! apiKey with
        | Some currentCache =>
            if decide (addr currentCache = addr cache) then
              putS (setTagMappings (delete apiKey (tagMappings s))
                      (setWorkloadCache (delete apiKey (workloadCache s)) s))
            else mret tt
        | None => mret tt
        end;;
        Unlock cacheLock;;
        mret Return
      else
        (if sinceExceeds now lastAccess (60 * second) && negb active
         then keyPrefix8 apiKey else mret tt);;
        r ← fetchWorkloads apiKey;
        match r with
        | FetchErr _ => keyPrefix8 apiKey
        | FetchOk workloads =>
            updateCache apiKey workloads;;
            keyPrefix8 apiKey
        end;;
        mret Select
  end.

Definition getWorkloads (apiKey : string) : M (GoResult (slice Workload)) :=
  RLock cacheLock;;
  s ← getS;
  RUnlock cacheLock;;
  updateLastAccess apiKey;;
  match workloadCache s !! apiKey with
  | None =>
      startCacheRefresh apiKey;;
      r ← fetchWorkloads apiKey;
      match r with
      | FetchErr e => mret (Err e)
      | FetchOk workloads =>
          updateCache apiKey workloads;;
          mret (Val workloads)
      end
  | Some cache0 =>
      cache ← deref apiKey cache0;
      if bool_decide (elems (Workloads cache) = []) then
        r ← fetchWorkloads apiKey;
        match r with
        | FetchErr e => mret (Err e)
        | FetchOk workloads =>
            updateCache apiKey workloads;;
            startCacheRefresh apiKey;;
            mret (Val workloads)
        end
      else
        RLock cacheLock;;
        cache ← deref apiKey cache0;
        let hasRunningNodes := existsb isRunning (elems (Workloads cache)) in
        now ← timeNow;
        let staleCache := sinceExceeds now (LastFetch cache) (60 * second) in
        RUnlock cacheLock;;
        if negb hasRunningNodes || staleCache then
          keyPrefix8 apiKey;;
          r ← fetchWorkloads apiKey;
          match r with
          | FetchErr _ =>
              RLock cacheLock;;
              deferred (RUnlock cacheLock) (
                cache ← deref apiKey cache0;
                mret (Val (Workloads cache)))
          | FetchOk workloads =>
              updateCache apiKey workloads;;
              mret (Val workloads)
          end
        else
          RLock cacheLock;;
          deferred (RUnlock cacheLock) (
            cache ← deref apiKey cache0;
            mret (Val (Workloads cache)))
  end.

(** ** loadbalancer.go: least-busy selection *)

(** The selection loop: [selectedNode] and [minRequests], starting from
    [("", -1)]. *)
Definition selectStep (s : ProxyServer) (apiKey : string) (acc : string * Z)
  (node : string) : string * Z :=
  let '(selectedNode, minRequests) := acc in
  let requests := countOf s apiKey node in
  if (minRequests =? -1) || (requests <? minRequests)
  then (node, requests) else (selectedNode, minRequests).

Definition selectLoop (s : ProxyServer) (apiKey : string) (nodes : list string)
  : string * Z :=
  foldl (selectStep s apiKey) (""%string, -1) nodes.

(** The candidate list [nodes] built under both read locks. *)
Definition candidateNodes (s : ProxyServer) (apiKey tag : string)
  : GoResult (list string) :=
  if bool_decide (tag = "all") then
    match workloadCache s !! apiKey with
    | Some cache =>
        match Workloads cache with
        | Some workloads => Val (runningNodes workloads)
        | None => Err "no workloads found for API key"
        end
    | None => Err "no workloads found for API key"
    end
  else
    match tagMappings s !! apiKey with
    | None => Err "no nodes found for API key"
    | Some tagMap =>
        match tagMap !! tag with
        | Some (node :: nodes) => Val (node :: nodes)
        | _ => Err ("no nodes found for tag: " +:+ tag)
        end
    end.

Definition GetLeastBusyNode (apiKey tag : string) : M (GoResult string) :=
  RLock cacheLock;;
  s ← getS;
  let nodesExist :=
    match workloadCache s !! apiKey with
    | Some cache => existsb isRunning (elems (Workloads cache))
    | None => false
    end in
  RUnlock cacheLock;;
  refreshed ←
    (if nodesExist then mret (Val tt)
     else
       keyPrefix8 apiKey;;
       r ← forceRefreshWorkloads apiKey;
       mret (match r with
             | Err e => Err ("failed to refresh workloads: " +:+ e)
             | Val _ => Val tt
             end));
  match refreshed with
  | Err e => mret (Err e)
  | Val _ =>
      RLock requestLock;;
      deferred (RUnlock requestLock) (
        RLock cacheLock;;
        deferred (RUnlock cacheLock) (
          s ← getS;
          match candidateNodes s apiKey tag with
          | Err e => mret (Err e)
          | Val [] => mret (Err "no active nodes found")
          | Val nodes =>
              (if inFlightRequests s !! apiKey is None then
                 RUnlock requestLock;;
                 Lock requestLock;;
                 putS (setInFlightRequests
                         (<[apiKey := ∅]> (inFlightRequests s)) s);;
                 Unlock requestLock;;
                 RLock requestLock
               else mret tt);;
              s ← getS;
              mret (Val (selectLoop s apiKey nodes).1)
          end))
  end.

(** ** server.go *)

Definition DumpInFlightRequests : M unit :=
  lvl ← getLogLevel;
  match lvl with
  | DEBUG => RLock requestLock;; deferred (RUnlock requestLock) (mret tt)
  | _ => mret tt
  end.

(** [Cleanup] closes the stop channel of every registry entry under the
    registry lock.  [order] is the order in which the range over
    [workloadCache] visits its keys; closing a closed channel panics. *)
Definition closeStopRefresh (apiKey : string) : M unit :=
  keyPrefix8 apiKey;;
  s ← getS;
  match workloadCache s !! apiKey with
  | Some cache =>
      match StopRefresh cache with
      | Some false =>
          storeCache apiKey
            (mkCache (Workloads cache) (LastFetch cache) (LastAccess cache)
                     (Some true) (addr cache))
      | Some true => panic
      | None => mret tt
      end
  | None => mret tt
  end.

Definition Cleanup (order : list string) : M unit :=
  Lock cacheLock;;
  deferred (Unlock cacheLock)
    (foldr (λ apiKey rest, closeStopRefresh apiKey;; rest) (mret tt) order).

(** ** Library functions used by the handlers ([strings], [strconv]) *)

Fixpoint strTake (n : nat) (s : string) : string :=
  match n, s with
  | S n', String c s' => String c (strTake n' s')
  | _, _ => EmptyString
  end.

Fixpoint strDrop (n : nat) (s : string) : string :=
  match n, s with
  | S n', String _ s' => strDrop n' s'
  | _, _ => s
  end.

(** [strings.TrimPrefix(s, prefix)] *)
Definition TrimPrefix (s pre : string) : string :=
  if bool_decide (strTake (String.length pre) s = pre)
  then strDrop (String.length pre) s else s.

(** [strings.Cut] for a one-byte separator. *)
Fixpoint cut (sep : ascii) (s : string) : option (string * string) :=
  match s with
  | EmptyString => None
  | String c s' =>
      if bool_decide (c = sep) then Some (EmptyString, s')
      else match cut sep s' with
           | Some (a, b) => Some (String c a, b)
           | None => None
           end
  end.

(** [strings.SplitN(s, sep, n)] for a one-byte separator and [n >= 0]: at
    most [n] substrings, the last one the unsplit remainder. *)
Fixpoint SplitN (s : string) (sep : ascii) (n : nat) : list string :=
  match n with
  | O => []
  | S O => [s]
  | S n' =>
      match cut sep s with
      | Some (a, b) => a :: SplitN b sep n'
      | None => [s]
      end
  end.

(** [strings.Join(parts, sep)] *)
Fixpoint Join (parts : list string) (sep : string) : string :=
  match parts with
  | [] => EmptyString
  | [p] => p
  | p :: rest => p +:+ sep +:+ Join rest sep
  end.

Definition digitOf (c : ascii) : option Z :=
  let n := Z.of_nat (nat_of_ascii c) in
  if (48 <=? n) && (n <=? 57) then Some (n - 48) else None.

Fixpoint parseDigits (s : string) (acc : Z) : option Z :=
  match s with
  | EmptyString => Some acc
  | String c s' =>
      match digitOf c with
      | Some d => parseDigits s' (10 * acc + d)
      | None => None
      end
  end.

(** [strconv.Atoi]: an optional sign and at least one decimal digit, with
    a value in the range of [int]; [None] stands for a non-nil error. *)
Definition Atoi (s : string) : option Z :=
  let '(negative, digits) :=
    match s with
    | String "-"%char s' => (true, s')
    | String "+"%char s' => (false, s')
    | _ => (false, s)
    end in
  match digits with
  | EmptyString => None
  | _ =>
      match parseDigits digits 0 with
      | Some v =>
          let v := if negative then - v else v in
          if (GoInt.minInt <=? v) && (v <=? GoInt.maxInt) then Some v else None
      | None => None
      end
  end.

(** ** The request handlers *)

(** The parts of [*http.Request] the handlers read.  [Header] is keyed by
    the header names as the source writes them. *)
Record Request : Type := mkRequest {
  Method : string;
  Path : string;
  RawQuery : string;
  Header : gmap string (list string)
}.

Definition setPath (p : string) (r : Request) : Request :=
  mkRequest (Method r) p (RawQuery r) (Header r).

(** [r.Header.Get(key)]: the first value, the empty string when absent. *)
Definition Get (h : gmap string (list string)) (key : string) : string :=
  match h !! key with
  | Some (v :: _) => v
  | _ => EmptyString
  end.

(** How a read from the upstream response body ends. *)
Inductive ReadEnd : Type := EOF | ReadFailure.

(** An upstream response body as the sequence of results of
    [resp.Body.Read]: chunks read with a nil error, then a last read that
    returns [lastChunk] together with a non-nil error. *)
Record RespBody : Type := mkBody {
  chunks : list string;
  lastChunk : string;
  readEnd : ReadEnd
}.

Record Response : Type := mkResponse {
  StatusCode : Z;
  Body : RespBody
}.

(** The outside of one forwarded request: whether [http.NewRequest] fails,
    what [client.Do] returns, whether the caller's [ResponseWriter] is an
    [http.Flusher], and after how many successful calls [w.Write] starts
    to fail ([None]: never). *)
Record Net : Type := mkNet {
  newRequestErr : option string;
  doResult : GoResult Response;
  flusher : bool;
  writeBudget : option nat
}.

Inductive ReplyBody : Type :=
| HealthJSON (time : Z)
| WorkloadsJSON (workloads : slice Workload)
| ErrorText (msg : string)
| Relayed (written : string).

Record Reply : Type := mkReply {
  status : Z;
  body : ReplyBody
}.

Definition StatusOK : Z := 200.
Definition StatusBadRequest : Z := 400.
Definition StatusUnauthorized : Z := 401.
Definition StatusNotFound : Z := 404.
Definition StatusInternalServerError : Z := 500.
Definition StatusBadGateway : Z := 502.

(** [http.Error(w, msg, code)] *)
Definition httpError (msg : string) (code : Z) : Reply :=
  mkReply code (ErrorText msg).

Definition writeOk (budget : option nat) (written : nat) : bool :=
  match budget with
  | None => true
  | Some k => (written <? k)%nat
  end.

(** The copy loop of the streaming goroutine: [writes] counts the calls of
    [w.Write] so far, [out] is what has reached the caller.  A chunk of
    length 0 is not written; the loop ends on a write error, on [io.EOF]
    or on a read error. *)
Fixpoint copyLoop (budget : option nat) (reads : list string) (last : string)
  (writes : nat) (out : string) : string :=
  match reads with
  | [] =>
      if bool_decide (last = EmptyString) then out
      else if writeOk budget writes then out +:+ last else out
  | chunk :: rest =>
      if bool_decide (chunk = EmptyString)
      then copyLoop budget rest last writes out
      else if writeOk budget writes
           then copyLoop budget rest last (S writes) (out +:+ chunk)
           else out
  end.

(** [io.Copy(w, resp.Body)] transfers the same bytes: it stops on the first
    failing write and after the read that returns an error. *)
Definition ioCopy (budget : option nat) (b : RespBody) : string :=
  copyLoop budget (chunks b) (lastChunk b) 0 EmptyString.

Definition relay (net : Net) (resp : Response) : string :=
  if flusher net
  then copyLoop (writeBudget net) (chunks (Body resp)) (lastChunk (Body resp))
                0 EmptyString
  else ioCopy (writeBudget net) (Body resp).

Definition dumpIfDebug : M unit :=
  lvl ← getLogLevel;
  match lvl with
  | DEBUG => DumpInFlightRequests
  | _ => mret tt
  end.

Definition HandleProxyRequest (net : Net) (r : Request) (node apiKey : string)
  : M Reply :=
  let targetURL :=
    ("https://" +:+ node +:+ Path r) +:+
    (if bool_decide (RawQuery r = EmptyString) then EmptyString
     else "?" +:+ RawQuery r) in
  match newRequestErr net with
  | Some err => mret (httpError err StatusInternalServerError)
  | None =>
      TrackRequest apiKey node 1;;
      dumpIfDebug;;
      deferred (TrackRequest apiKey node (-1);; dumpIfDebug) (
        emit (EvDo (Method r) targetURL);;
        match doResult net with
        | Err err => mret (httpError err StatusBadGateway)
        | Val resp =>
            mret (mkReply (StatusCode resp) (Relayed (relay net resp)))
        end)
  end.

(** The credential of a request: [X-C3-API-KEY], else the token of an
    [Authorization: Bearer] header. *)
Definition apiKeyOf (r : Request) : string :=
  let apiKey := Get (Header r) "X-C3-API-KEY" in
  if bool_decide (apiKey = EmptyString) then
    let auth := Get (Header r) "Authorization" in
    if negb (bool_decide (auth = EmptyString))
       && (7 <? String.length auth)%nat
       && bool_decide (strTake 7 auth = "Bearer ")
    then strDrop 7 auth else apiKey
  else apiKey.

Definition runningWorkloadsOf (workloads : slice Workload) : list Workload :=
  filter (λ w, isRunning w = true) (elems workloads).

Definition slash : ascii := "/"%char.

Definition ProxyHandler (net : Net) (r : Request) : M Reply :=
  if bool_decide (Path r = "/") && bool_decide (Method r = "GET") then
    t ← timeNow;
    mret (mkReply StatusOK (HealthJSON t))
  else
    let apiKey := apiKeyOf r in
    if bool_decide (apiKey = EmptyString) then
      mret (httpError
              "Missing API key (use X-C3-API-KEY header or Authorization Bearer)"
              StatusUnauthorized)
    else
      updateLastAccess apiKey;;
      keyPrefix8 apiKey;;
      if bool_decide (Path r = "/workloads") then
        res ← getWorkloads apiKey;
        match res with
        | Err err => mret (httpError err StatusInternalServerError)
        | Val workloads => mret (mkReply StatusOK (WorkloadsJSON workloads))
        end
      else
        res ← getWorkloads apiKey;
        match res with
        | Err err => mret (httpError err StatusInternalServerError)
        | Val _ =>
            match SplitN (TrimPrefix (Path r) "/") slash 3 with
            | [] =>
                mret (httpError
                        "Invalid path. Use /tags/{tag} or /{index} to access workloads"
                        StatusBadRequest)
            | part0 :: parts =>
                if bool_decide (part0 = "tags") then
                  match parts with
                  | [] =>
                      mret (httpError "Missing tag. Use /tags/{tag}"
                              StatusBadRequest)
                  | tag :: rest =>
                      sel ← GetLeastBusyNode apiKey tag;
                      match sel with
                      | Err err => mret (httpError err StatusNotFound)
                      | Val node =>
                          let path :=
                            match rest with
                            | part2 :: _ => "/" +:+ part2
                            | [] => "/"
                            end in
                          HandleProxyRequest net (setPath path r) node apiKey
                      end
                  end
                else
                  match Atoi part0 with
                  | None =>
                      mret (httpError "Invalid workload index. Must be a number"
                              StatusBadRequest)
                  | Some index =>
                      res ← forceRefreshWorkloads apiKey;
                      match res with
                      | Err err =>
                          mret (httpError
                                  ("Failed to refresh workloads: " +:+ err)
                                  StatusInternalServerError)
                      | Val workloads =>
                          let runningWorkloads := runningWorkloadsOf workloads in
                          if bool_decide (runningWorkloads = []) then
                            keyPrefix8 apiKey;;
                            mret (httpError "No running workloads found"
                                    StatusNotFound)
                          else
                            match
                              (if (index <? 0)
                                  || (Z.of_nat (length runningWorkloads) <=? index)
                               then None
                               else runningWorkloads !! Z.to_nat index)
                            with
                            | None =>
                                mret (httpError
                                        ("Workload index " +:+ pretty index
                                         +:+ " out of range (0-" +:+
                                         pretty (Z.of_nat (length runningWorkloads) - 1)
                                         +:+ ")")
                                        StatusNotFound)
                            | Some selected =>
                                let path :=
                                  match parts with
                                  | _ :: _ => "/" +:+ Join parts "/"
                                  | [] => "/"
                                  end in
                                HandleProxyRequest net (setPath path r)
                                  (Node selected) apiKey
                            end
                      end
                  end
            end
        end.

(** ** server.go: copying headers *)

(** [h.Add(key, value)]: the value is appended to the values stored under
    the canonical form of [key].  [canon] is the canonicalisation of
    header names that [net/http] applies. *)
Definition Header_Add (canon : string → string)
    (h : gmap string (list string)) (key value : string)
  : gmap string (list string) :=
  <[canon key := default [] (h !! canon key) ++ [value]]> h.

(** [copyHeader(dst, src)].  [STRIP_ORIGIN] is the value of the
    environment variable of that name (the empty string when unset) and
    [order] the order in which the range over [src] visits its keys. *)
Definition copyHeader (canon : string → string) (STRIP_ORIGIN : string)
    (order : list string) (dst src : gmap string (list string))
  : gmap string (list string) :=
  let stripOrigin := bool_decide (STRIP_ORIGIN = "true") in
  foldl (λ dst k,
           if stripOrigin && bool_decide (k = "Origin") then dst
           else foldl (λ dst v, Header_Add canon dst k v) dst
                      (default [] (src !! k)))
        dst order.

(** * Specification-level definitions *)

(** The stored counter entry of a (tenant, node) pair, [None] when absent. *)
Definition stored (s : ProxyServer) (apiKey node : string) : option Z :=
  inFlightRequests s !! apiKey ≫= λ m, m !! node.

(** The world after a call, whether it returned or panicked. *)
Definition after {A : Type} (m : M A) (w : World) : World := world_of (m w).

(** The stored entries observed after each call of a sequence of
    [TrackRequest] calls on one pair. *)
Fixpoint observations (apiKey node : string) (w : World) (deltas : list Z)
  : list (option Z) :=
  match deltas with
  | [] => []
  | d :: deltas' =>
      let w' := after (TrackRequest apiKey node d) w in
      stored (server w') apiKey node :: observations apiKey node w' deltas'
  end.

(** The value [TrackRequest] leaves in the counter, as a function of the
    value it finds and of [delta]. *)
Definition trackedCount (cur delta : Z) : Z :=
  if (delta <? 0) && (cur <=? 0) then 0
  else if (delta <? 0) && (cur <? GoInt.neg delta) then 0
  else if GoInt.add cur delta <? 0 then 0 else GoInt.add cur delta.

Definition withCount (apiKey node : string) (v : Z) (s : ProxyServer)
  : ProxyServer :=
  setInFlightRequests
    (<[apiKey := <[node := v]> (default ∅ (inFlightRequests s !! apiKey))]>
       (inFlightRequests s)) s.

Definition withTrace (t : list Event) (w : World) : World :=
  mkWorld (server w) (logLevel w) (upstream w) (clock w) (fetchCalls w)
          (clockReads w) (nextAddr w) t.

(** The clamped running sums of a sequence of deltas. *)
Fixpoint clampedSums (cur : Z) (deltas : list Z) : list Z :=
  match deltas with
  | [] => []
  | d :: deltas' =>
      let cur' := Z.max 0 (cur + d) in
      cur' :: clampedSums cur' deltas'
  end.

(** The bucket of a tag in a tag map, empty when the tag is absent. *)
Definition bucket (tagMap : gmap string (list string)) (tag : string)
  : list string :=
  default [] (tagMap !! tag).

(** The nodes a workload list contributes to a tag: one occurrence of the
    node of each running workload per occurrence of the tag in its tags, in
    the order of the list. *)
Definition nodesTagged (workloads : list Workload) (tag : string)
  : list string :=
  workloads ≫= λ w,
    if isRunning w
    then (λ _, Node w) <$> filter (λ t, t = tag) (elems (Tags w))
    else [].

(** No tag is mapped to an empty bucket. *)
Definition noEmptyBucket (tagMap : gmap string (list string)) : Prop :=
  ∀ tag l, tagMap !! tag = Some l → l ≠ [].

(** The registry entry and the world [updateCache] leaves for a tenant whose
    entry was [c]. *)
Definition updatedCache (workloads : slice Workload) (now : Z)
  (c : WorkloadCache) : WorkloadCache :=
  mkCache workloads now (LastAccess c) (StopRefresh c) (addr c).

Definition updatedWorld (apiKey : string) (workloads : slice Workload)
  (c : WorkloadCache) (w : World) : World :=
  mkWorld
    (mkServer
       (<[apiKey := updatedCache workloads (clock w (clockReads w)) c]>
          (workloadCache (server w)))
       (inFlightRequests (server w))
       (<[apiKey := (scanWorkloads (elems workloads)).2]>
          (tagMappings (server w))))
    (logLevel w) (upstream w) (clock w) (fetchCalls w) (S (clockReads w))
    (nextAddr w) (EvUnlock cacheLock :: EvLock cacheLock :: trace w).

(** ** Sample data *)

Definition wlA : Workload :=
  mkWorkload 1 2 "node-a" true "running" "gpu" "w-a" (Some ["t"; "fast"]).
Definition wlB : Workload :=
  mkWorkload 1 2 "node-b" true "running" "gpu" "w-b" (Some ["t"]).
Definition wlC : Workload :=
  mkWorkload 1 2 "node-c" true "running" "gpu" "w-c" None.
Definition wlStopped : Workload :=
  mkWorkload 1 2 "node-s" true "stopping" "gpu" "w-s" (Some ["t"]).
Definition wlOff : Workload :=
  mkWorkload 1 2 "node-o" false "running" "gpu" "w-o" (Some ["t"]).

Definition tenant : string := "tenant-0001".

(** An upstream that always reports the given list, and one that is down. *)
Definition upstreamOf (workloads : slice Workload) : nat → string → FetchResult :=
  λ _ _, FetchOk workloads.
Definition upstreamDown : nat → string → FetchResult :=
  λ _ _, FetchErr "connection refused".

(** A clock that advances by one second per reading. *)
Definition tickingClock : nat → Z := λ n, Z.of_nat n * second.

(** The world after the first [startCacheRefresh] for [tenant]. *)
Definition worldWithRegistry (up : nat → string → FetchResult) : World :=
  after (startCacheRefresh tenant) (startWorld up tickingClock).

(** The same world with the clock stopped at [t]. *)
Definition atTime (t : Z) (w : World) : World :=
  mkWorld (server w) (logLevel w) (upstream w) (λ _, t) (fetchCalls w)
          (clockReads w) (nextAddr w) (trace w).

(** The world [updateLastAccess] leaves. *)
Definition touchedWorld (apiKey : string) (w : World) : World :=
  match workloadCache (server w) !! apiKey with
  | Some c =>
      mkWorld
        (mkServer
           (<[apiKey := setLastAccess (clock w (clockReads w)) c]>
              (workloadCache (server w)))
           (inFlightRequests (server w)) (tagMappings (server w)))
        (logLevel w) (upstream w) (clock w) (fetchCalls w) (S (clockReads w))
        (nextAddr w) (EvUnlock cacheLock :: EvLock cacheLock :: trace w)
  | None => withTrace (EvUnlock cacheLock :: EvLock cacheLock :: trace w) w
  end.

(** The world [startCacheRefresh] leaves when it does not panic. *)
Definition startedWorld (apiKey : string) (w : World) : World :=
  let now := clock w (clockReads w) in
  match workloadCache (server w) !! apiKey with
  | Some c =>
      mkWorld
        (mkServer
           (<[apiKey := mkCache (Workloads c) (LastFetch c) now
                          (Some (default false (StopRefresh c))) (addr c)]>
              (workloadCache (server w)))
           (inFlightRequests (server w)) (tagMappings (server w)))
        (logLevel w) (upstream w) (clock w) (fetchCalls w) (S (clockReads w))
        (nextAddr w)
        (match StopRefresh c with
         | Some _ => EvUnlock cacheLock :: EvLock cacheLock :: trace w
         | None =>
             EvGo apiKey (addr c) :: EvUnlock cacheLock :: EvLock cacheLock
               :: trace w
         end)
  | None =>
      mkWorld
        (mkServer
           (<[apiKey := mkCache None zeroTime now (Some false) (nextAddr w)]>
              (workloadCache (server w)))
           (inFlightRequests (server w)) (tagMappings (server w)))
        (logLevel w) (upstream w) (clock w) (fetchCalls w) (S (clockReads w))
        (S (nextAddr w))
        (EvGo apiKey (nextAddr w) :: EvUnlock cacheLock :: EvLock cacheLock
           :: trace w)
  end.

(** A world whose registry for [tenant] holds a snapshot fetched long ago,
    with the upstream now down. *)
Definition worldWithStaleSnapshot (workloads : slice Workload) : World :=
  atTime (1000 * second)
    (after (updateCache tenant workloads) (worldWithRegistry upstreamDown)).

(** [node] is the first element of [nodes] that attains the minimum of
    [count] over [nodes]. *)
Definition firstMinimum (count : string → Z) (nodes : list string)
  (node : string) : Prop :=
  ∃ i : nat,
    nodes !! i = Some node
    ∧ (∀ (j : nat) n, nodes !! j = Some n → count node ≤ count n)
    ∧ (∀ (j : nat) n, (j < i)%nat → nodes !! j = Some n → count node < count n).

(** The test [nodesExist] at the head of [GetLeastBusyNode]. *)
Definition registryHasRunning (s : ProxyServer) (apiKey : string) : bool :=
  match workloadCache s !! apiKey with
  | Some cache => existsb isRunning (elems (Workloads cache))
  | None => false
  end.

(** The world in which [GetLeastBusyNode] enumerates its candidates: the
    given one when the registry reports a running node, the one after the
    forced refresh otherwise. *)
Definition selectionWorld (apiKey : string) (w : World) : World :=
  if registryHasRunning (server w) apiKey then w
  else after (forceRefreshWorkloads apiKey) w.

(** The world after one call of the upstream. *)
Definition fetchedWorld (w : World) : World :=
  mkWorld (server w) (logLevel w) (upstream w) (clock w) (S (fetchCalls w))
          (clockReads w) (nextAddr w) (trace w).

(** The result and the world of [forceRefreshWorkloads] when it does not
    panic. *)
Definition forcedResult (apiKey : string) (w : World)
  : GoResult (slice Workload) :=
  match upstream w (fetchCalls w) apiKey with
  | FetchOk workloads => Val workloads
  | FetchErr e => Err ("failed to fetch workloads: " +:+ e)
  end.

Definition forcedWorld (apiKey : string) (w : World) : World :=
  match upstream w (fetchCalls w) apiKey with
  | FetchErr _ => fetchedWorld w
  | FetchOk workloads =>
      match workloadCache (server w) !! apiKey with
      | Some c =>
          let w1 := updatedWorld apiKey workloads c (fetchedWorld w) in
          withTrace (EvRUnlock cacheLock :: EvRLock cacheLock :: trace w1) w1
      | None =>
          startedWorld apiKey
            (withTrace (EvRUnlock cacheLock :: EvRLock cacheLock
                          :: EvUnlock cacheLock :: EvLock cacheLock :: trace w)
               (fetchedWorld w))
      end
  end.

(** What [GetLeastBusyNode] returns from the tables [s] once the refresh
    check has passed. *)
Definition selectionResult (s : ProxyServer) (apiKey tag : string)
  : GoResult string :=
  match candidateNodes s apiKey tag with
  | Err e => Err e
  | Val [] => Err "no active nodes found"
  | Val nodes => Val (selectLoop s apiKey nodes).1
  end.

(** The worlds [TrackRequest] and the debug dump leave. *)
Definition trackedWorld (apiKey node : string) (delta : Z) (w : World) : World :=
  withTrace (EvUnlock requestLock :: EvLock requestLock
               :: EvTrack apiKey node delta :: trace w)
    (setServer (withCount apiKey node
                  (trackedCount (countOf (server w) apiKey node) delta)
                  (server w)) w).

Definition dumpedWorld (w : World) : World :=
  match logLevel w with
  | DEBUG => withTrace (EvRUnlock requestLock :: EvRLock requestLock :: trace w) w
  | _ => w
  end.

Definition isLockEvent (e : Event) : bool :=
  match e with
  | EvLock _ | EvUnlock _ | EvRLock _ | EvRUnlock _ => true
  | _ => false
  end.

(** The events of a trace that are not lock operations. *)
Definition calls (t : list Event) : list Event :=
  filter (λ e, isLockEvent e = false) t.

(** The URL [HandleProxyRequest] builds. *)
Definition targetURLOf (r : Request) (node : string) : string :=
  ("https://" +:+ node +:+ Path r) +:+
  (if bool_decide (RawQuery r = EmptyString) then EmptyString
   else "?" +:+ RawQuery r).

(** The reply and the world of [HandleProxyRequest] once the outbound
    request has been built. *)
Definition forwardedReply (net : Net) : Reply :=
  match doResult net with
  | Err err => httpError err StatusBadGateway
  | Val resp => mkReply (StatusCode resp) (Relayed (relay net resp))
  end.

Definition forwardedWorld (r : Request) (node apiKey : string) (w : World)
  : World :=
  let w1 := dumpedWorld (trackedWorld apiKey node 1 w) in
  let w2 := withTrace (EvDo (Method r) (targetURLOf r node) :: trace w1) w1 in
  dumpedWorld (trackedWorld apiKey node (-1) w2).

Definition sampleRequest (path : string) : Request :=
  mkRequest "POST" path "" {[ "X-C3-API-KEY" := [tenant] ]}.

Definition sampleResponse : Response :=
  mkResponse 200 (mkBody ["hel"; "lo "] "world" EOF).

Definition missingKeyMessage : string :=
  "Missing API key (use X-C3-API-KEY header or Authorization Bearer)".

(** The part of an index path after the index: nothing, or a slash and
    the remainder. *)
Definition tailOf (tail : option string) : string :=
  match tail with
  | Some rest => String slash rest
  | None => EmptyString
  end.

(** ** Lock discipline over traces *)

Definition lockEq (a b : RWLock) : bool :=
  match a, b with
  | cacheLock, cacheLock | requestLock, requestLock => true
  | _, _ => false
  end.

(** Holding at most one lock at a time.  The state is the lock held, if
    any; [None] as a result means that a lock was acquired while another
    (or the same) was held, or released while not held. *)
Definition soloStep (e : Event) (st : option (option RWLock))
  : option (option RWLock) :=
  match st with
  | None => None
  | Some held =>
      match e with
      | EvLock l | EvRLock l =>
          match held with
          | None => Some (Some l)
          | Some _ => None
          end
      | EvUnlock l | EvRUnlock l =>
          match held with
          | Some l' => if lockEq l l' then Some None else None
          | None => None
          end
      | _ => Some held
      end
  end.

(** Traces list the most recent event first. *)
Fixpoint soloRun (t : list Event) : option (option RWLock) :=
  match t with
  | [] => Some None
  | e :: t' => soloStep e (soloRun t')
  end.

(** The lock-ordering rule: the registry lock is never acquired while the
    counter lock is held.  The state counts the holds of the counter lock;
    [None] means that the rule was broken. *)
Definition orderStep (e : Event) (st : option nat) : option nat :=
  match st with
  | None => None
  | Some n =>
      match e with
      | EvLock requestLock | EvRLock requestLock => Some (S n)
      | EvUnlock requestLock | EvRUnlock requestLock => Some (pred n)
      | EvLock cacheLock | EvRLock cacheLock =>
          match n with
          | O => Some n
          | S _ => None
          end
      | _ => Some n
      end
  end.

Fixpoint orderRun (t : list Event) : option nat :=
  match t with
  | [] => Some O
  | e :: t' => orderStep e (orderRun t')
  end.

(** A call that starts with the lock state [h] ends, when it returns, with
    the lock state [h'] and, when it panics, with the lock state [p], no
    lock having been taken while another was held. *)
Definition holds {A : Type} (h : option RWLock) (m : M A)
  (h' p : option RWLock) : Prop :=
  ∀ w, soloRun (trace w) = Some h →
       match m w with
       | Ok _ w' => soloRun (trace w') = Some h'
       | Panic w' => soloRun (trace w') = Some p
       end.

(** A call that takes its locks one at a time and releases them. *)
Definition solo {A : Type} (m : M A) : Prop := holds None m None None.

Definition silent {A : Type} (m : M A) : Prop :=
  ∀ w, trace (world_of (m w)) = trace w.

Definition nopanic {A : Type} (m : M A) : Prop :=
  ∀ w, ∃ a w', m w = Ok a w'.

(** * Further specification-level definitions *)

(** The reads of a response body that carry bytes: each is handed to one
    call of [w.Write]. *)
Definition writesOf (b : RespBody) : list string :=
  filter (λ s, s ≠ EmptyString) (chunks b ++ [lastChunk b]).

Definition joined (l : list string) : string :=
  foldr String.append EmptyString l.

(** The writes a caller accepts: all of them, or the first [k]. *)
Definition accepted (budget : option nat) (l : list string) : list string :=
  match budget with
  | None => l
  | Some k => take k l
  end.

(** A registry entry whose stop channel, if it has one, is closed. *)
Definition closed (c : WorkloadCache) : WorkloadCache :=
  mkCache (Workloads c) (LastFetch c) (LastAccess c)
          (match StopRefresh c with Some _ => Some true | None => None end)
          (addr c).

(** The loop of [Cleanup] over the keys in the order the range visits
    them. *)
Definition closeAll (order : list string) : M unit :=
  foldr (λ apiKey rest, closeStopRefresh apiKey;; rest) (mret tt) order.

(** The values of a header after [extra] has been added to it: adding
    nothing leaves the header as it was, absent if it was absent. *)
Definition appended (o : option (list string)) (extra : list string)
  : option (list string) :=
  match extra with
  | [] => o
  | _ => Some (default [] o ++ extra)
  end.

(** The values [copyHeader] adds under the name [key]: those of the source
    headers it does not skip whose canonical name is [key], in the order
    of the range. *)
Definition copied (canon : string → string) (STRIP_ORIGIN : string)
    (order : list string) (src : gmap string (list string)) (key : string)
  : list string :=
  concat (map (λ k, default [] (src !! k))
              (filter (λ k, canon k = key
                            ∧ ¬ (STRIP_ORIGIN = "true" ∧ k = "Origin"))
                      order)).

(** ** The tag index and the registry *)

(** The tag index holds, for each tenant it knows, the index computed from
    the workload list the registry stores for that tenant; it knows no
    tenant the registry has no entry for. *)
Definition consistent (s : ProxyServer) : Prop :=
  ∀ k t, tagMappings s !! k = Some t →
    ∃ c, workloadCache s !! k = Some c
         ∧ t = (scanWorkloads (elems (Workloads c))).2.

(** [m] preserves [consistent], whether it returns or panics. *)
Definition keeps {A : Type} (m : M A) : Prop :=
  ∀ w, consistent (server w) → consistent (server (world_of (m w))).

(** [m] leaves the registry and the tag index as they are. *)
Definition still {A : Type} (m : M A) : Prop :=
  ∀ w, workloadCache (server (world_of (m w))) = workloadCache (server w)
       ∧ tagMappings (server (world_of (m w))) = tagMappings (server w).

(** What the server does, one activity at a time: it serves a request,
    a refresh task makes one pass of its loop, or it shuts down. *)
Inductive Activity : Type :=
| Serve (net : Net) (r : Request)
| RefreshPass (apiKey : string)
| Shutdown (order : list string).

Definition perform (w : World) (a : Activity) : World :=
  match a with
  | Serve net r => after (ProxyHandler net r) w
  | RefreshPass apiKey => after (refreshIteration apiKey) w
  | Shutdown order => after (Cleanup order) w
  end.

(** The world after a sequence of activities from start-up. *)
Definition history (up : nat → string → FetchResult) (ck : nat → Z)
    (acts : list Activity) : World :=
  foldl perform (startWorld up ck) acts.

(** * Properties *)

(** ** Running the monad *)

(** Calls of the modelled functions are stepped through with their run
    lemmas rather than unfolded by [simpl]. *)
Arguments updateLastAccess : simpl never.
Arguments updateCache : simpl never.
Arguments startCacheRefresh : simpl never.
Arguments forceRefreshWorkloads : simpl never.
Arguments refreshIteration : simpl never.
Arguments getWorkloads : simpl never.
Arguments GetLeastBusyNode : simpl never.
Arguments TrackRequest : simpl never.
Arguments DumpInFlightRequests : simpl never.
Arguments HandleProxyRequest : simpl never.
Arguments ProxyHandler : simpl never.
Arguments deref : simpl never.
Arguments keyPrefix8 : simpl never.

Ltac munfold :=
  unfold mbind, M_bind, mret, M_ret, getS, putS, emit, Lock, Unlock, RLock,
    RUnlock, deferred, storeCount, storeCache, panic, getLogLevel, setServer,
    setWorkloadCache, setInFlightRequests, setTagMappings in *.

Lemma wrap64_id z : GoInt.inRange z → GoInt.wrap64 z = z.
Proof.
  unfold GoInt.inRange, GoInt.minInt, GoInt.maxInt, GoInt.wrap64. intros H.
  rewrite Z.mod_small; lia.
Qed.

Lemma wrap64_range z : GoInt.inRange (GoInt.wrap64 z).
Proof.
  unfold GoInt.inRange, GoInt.minInt, GoInt.maxInt, GoInt.wrap64.
  pose proof (Z.mod_pos_bound (z + 2 ^ 63) (2 ^ 64) ltac:(lia)). lia.
Qed.

(** ** The in-flight counter *)

Lemma countOf_stored s k n : countOf s k n = default 0 (stored s k n).
Proof. reflexivity. Qed.

Lemma stored_withCount k n v s : stored (withCount k n v s) k n = Some v.
Proof.
  unfold stored, withCount. simpl. rewrite lookup_insert_eq. simpl.
  by rewrite lookup_insert_eq.
Qed.

Lemma countOf_withCount k n v s : countOf (withCount k n v s) k n = v.
Proof. by rewrite countOf_stored, stored_withCount. Qed.

Lemma TrackRequest_run k n d w :
  TrackRequest k n d w =
  Ok tt (withTrace (EvUnlock requestLock :: EvLock requestLock :: EvTrack k n d
                      :: trace w)
           (setServer (withCount k n (trackedCount (countOf (server w) k n) d)
                         (server w)) w)).
Proof.
  destruct w as [[wc ifr tm] lvl up ck fc cr na tr].
  unfold TrackRequest, trackedCount, withCount, countOf, withTrace, setServer.
  munfold. simpl.
  destruct (ifr !! k) as [inner|] eqn:Hk; simpl;
    [destruct (inner !! n) as [c|] eqn:Hn|];
    repeat (repeat (progress (simpl; unfold setInFlightRequests; simpl;
                              rewrite ?Hk, ?Hn, ?lookup_insert_eq,
                                ?insert_insert_eq, ?lookup_empty));
            first [ reflexivity | congruence
                  | match goal with
                    | |- context [if ?c then _ else _] => destruct c eqn:?
                    end ]).
Qed.

Lemma trackedCount_nonneg cur d : 0 ≤ trackedCount cur d.
Proof.
  unfold trackedCount.
  repeat match goal with
         | |- context [if ?c then _ else _] => destruct c eqn:?
         end; lia.
Qed.

Lemma trackedCount_decrement cur : cur ≤ 0 → trackedCount cur (-1) = 0.
Proof.
  intros H. unfold trackedCount.
  replace (cur <=? 0) with true by lia. reflexivity.
Qed.

Lemma stored_after_TrackRequest k n d w :
  stored (server (after (TrackRequest k n d) w)) k n
  = Some (trackedCount (countOf (server w) k n) d).
Proof.
  unfold after. rewrite TrackRequest_run. simpl. apply stored_withCount.
Qed.

Lemma observations_nonneg k n deltas : ∀ w,
  Forall (λ o, ∃ v, o = Some v ∧ 0 ≤ v) (observations k n w deltas).
Proof.
  induction deltas as [|d deltas IH]; intros w; simpl; constructor.
  - rewrite stored_after_TrackRequest. eexists. split; [reflexivity|].
    apply trackedCount_nonneg.
  - apply IH.
Qed.

Lemma trackedCount_unit cur d :
  0 ≤ cur < GoInt.maxInt → d = 1 ∨ d = -1 →
  trackedCount cur d = Z.max 0 (cur + d).
Proof.
  unfold GoInt.maxInt. intros Hc [-> | ->]; unfold trackedCount, GoInt.add, GoInt.neg.
  - simpl. rewrite wrap64_id by (unfold GoInt.inRange, GoInt.minInt, GoInt.maxInt; lia).
    destruct (cur + 1 <? 0) eqn:E; lia.
  - change (- -1) with 1. rewrite (wrap64_id 1) by (by vm_compute).
    rewrite wrap64_id by (unfold GoInt.inRange, GoInt.minInt, GoInt.maxInt; lia).
    simpl. destruct (cur <=? 0) eqn:E1; [lia|].
    destruct (cur <? 1) eqn:E2; [lia|].
    destruct (cur + -1 <? 0) eqn:E3; lia.
Qed.

Lemma observations_clampedSums k n deltas : ∀ w,
  Forall (λ d, d = 1 ∨ d = -1) deltas →
  0 ≤ countOf (server w) k n →
  countOf (server w) k n + Z.of_nat (length deltas) ≤ GoInt.maxInt →
  observations k n w deltas
  = Some <$> clampedSums (countOf (server w) k n) deltas.
Proof.
  induction deltas as [|d deltas IH]; intros w Hd H0 Hmax; [done|].
  apply Forall_cons in Hd as [Hd Hds].
  cbn [observations clampedSums fmap list_fmap].
  rewrite stored_after_TrackRequest.
  cbn [length] in Hmax.
  assert (Hstep : trackedCount (countOf (server w) k n) d
                  = Z.max 0 (countOf (server w) k n + d))
    by (apply trackedCount_unit; [lia | done]).
  rewrite Hstep. f_equal.
  rewrite IH; try done.
  - f_equal. f_equal. rewrite countOf_stored, stored_after_TrackRequest.
    simpl. done.
  - rewrite countOf_stored, stored_after_TrackRequest. simpl. lia.
  - rewrite countOf_stored, stored_after_TrackRequest. simpl. rewrite Hstep.
    destruct Hd as [-> | ->]; lia.
Qed.

(** C2.  Every call of [TrackRequest] returns.  Along any sequence of calls
    with deltas +1 and -1 on one (tenant, node) pair that starts from an
    absent entry, the entry stored after each call exists and is at least 0,
    and, as long as the number of calls fits an [int], the stored values are
    the clamped running sums of the deltas.  A decrement that finds an
    absent entry or a value of at most 0 stores 0. *)
Theorem TrackRequest_clamped (apiKey node : string) (w : World)
  (deltas : list Z) :
  stored (server w) apiKey node = None →
  Forall (λ d, d = 1 ∨ d = -1) deltas →
  (∀ w' d, ∃ w'', TrackRequest apiKey node d w' = Ok tt w'')
  ∧ length (observations apiKey node w deltas) = length deltas
  ∧ Forall (λ o, ∃ v, o = Some v ∧ 0 ≤ v) (observations apiKey node w deltas)
  ∧ (Z.of_nat (length deltas) ≤ GoInt.maxInt →
     observations apiKey node w deltas = Some <$> clampedSums 0 deltas)
  ∧ (∀ w', countOf (server w') apiKey node ≤ 0 →
           stored (server (after (TrackRequest apiKey node (-1)) w'))
                  apiKey node = Some 0).
Proof.
  intros Habs Hds. repeat split.
  - intros w' d. rewrite TrackRequest_run. eauto.
  - clear. revert w. induction deltas as [|d ds IH]; intros w; simpl; [done|].
    by rewrite IH.
  - apply observations_nonneg.
  - intros Hlen.
    assert (H0 : countOf (server w) apiKey node = 0)
      by (rewrite countOf_stored, Habs; done).
    rewrite <- H0. apply observations_clampedSums; [done | lia | lia].
  - intros w' Hle. rewrite stored_after_TrackRequest.
    by rewrite trackedCount_decrement.
Qed.

Lemma TrackRequest_clamped_witness :
  let w := startWorld (λ _ _, FetchErr "down") (λ _, 0) in
  observations "tenant-0001" "node-a" w [-1; 1; 1; -1; -1; -1]
  = [Some 0; Some 1; Some 2; Some 1; Some 0; Some 0]
  ∧ Forall (λ o, ∃ v, o = Some v ∧ 0 ≤ v)
      (observations "tenant-0001" "node-a" w [-1; 1; 1; -1; -1; -1]).
Proof.
  split; [vm_compute; reflexivity|].
  apply (TrackRequest_clamped "tenant-0001" "node-a"
           (startWorld (λ _ _, FetchErr "down") (λ _, 0))
           [-1; 1; 1; -1; -1; -1]).
  - vm_compute. reflexivity.
  - repeat constructor; lia.
Defined.

(** ** The registry: [updateCache] *)

Lemma keyPrefix8_ok k w : (8 ≤ String.length k)%nat → keyPrefix8 k w = Ok tt w.
Proof.
  intros H. unfold keyPrefix8.
  destruct (String.length k <? 8)%nat eqn:E; [|done].
  apply Nat.ltb_lt in E. lia.
Qed.

Lemma bucket_addTags node tags : ∀ tm tag,
  bucket (addTags node tags tm) tag
  = bucket tm tag ++ ((λ _, node) <$> filter (λ t, t = tag) tags).
Proof.
  unfold addTags, bucket.
  induction tags as [|t tags IH]; intros tm tag; simpl.
  - by rewrite app_nil_r.
  - rewrite IH. rewrite filter_cons. destruct (decide (t = tag)) as [->|Hne].
    + rewrite lookup_insert_eq. simpl. by rewrite <- app_assoc.
    + by rewrite lookup_insert_ne.
Qed.

Lemma noEmptyBucket_addTags node tags : ∀ tm,
  noEmptyBucket tm → noEmptyBucket (addTags node tags tm).
Proof.
  unfold addTags.
  induction tags as [|t tags IH]; intros tm Htm; simpl; [done|].
  apply IH. intros tag l. destruct (decide (t = tag)) as [->|Hne].
  - rewrite lookup_insert_eq. intros [= <-]. by destruct (default [] (tm !! tag)).
  - rewrite lookup_insert_ne by done. apply Htm.
Qed.

Lemma scanStep_running acc w :
  isRunning w = true →
  scanStep acc w
  = ({[Node w]} ∪ acc.1.1, acc.1.2 + 1, addTags (Node w) (elems (Tags w)) acc.2).
Proof. intros H. unfold scanStep. rewrite H. by destruct acc as [[? ?] ?]. Qed.

Lemma scanStep_idle acc w : isRunning w = false → scanStep acc w = acc.
Proof. intros H. unfold scanStep. by rewrite H. Qed.

Lemma runningNodes_cons w ws :
  runningNodes (w :: ws)
  = if isRunning w then Node w :: runningNodes ws else runningNodes ws.
Proof.
  unfold runningNodes. rewrite filter_cons.
  destruct (isRunning w); by destruct (decide _).
Qed.

Lemma nodesTagged_cons w ws tag :
  nodesTagged (w :: ws) tag
  = (if isRunning w
     then (λ _, Node w) <$> filter (λ t, t = tag) (elems (Tags w))
     else []) ++ nodesTagged ws tag.
Proof. reflexivity. Qed.

Lemma scan_fold_spec workloads : ∀ acc,
  (foldl scanStep acc workloads).1.1
  = list_to_set (runningNodes workloads) ∪ acc.1.1
  ∧ (foldl scanStep acc workloads).1.2
    = acc.1.2 + Z.of_nat (length (runningNodes workloads))
  ∧ (∀ tag, bucket (foldl scanStep acc workloads).2 tag
            = bucket acc.2 tag ++ nodesTagged workloads tag)
  ∧ (noEmptyBucket acc.2 → noEmptyBucket (foldl scanStep acc workloads).2).
Proof.
  induction workloads as [|w ws IH]; intros acc.
  - cbn [foldl]. repeat split; [ | simpl; lia | | done].
    + unfold runningNodes. simpl. by rewrite union_empty_l_L.
    + intros tag. unfold nodesTagged. simpl. by rewrite app_nil_r.
  - cbn [foldl]. destruct (IH (scanStep acc w)) as (H1 & H2 & H3 & H4).
    rewrite H1, H2. rewrite runningNodes_cons.
    destruct (isRunning w) eqn:Hw.
    + rewrite scanStep_running in * by done. cbn [fst snd] in *.
      repeat split.
      * rewrite list_to_set_cons.
        rewrite (union_comm_L {[Node w]} (list_to_set _)).
        by rewrite <- !union_assoc_L.
      * cbn [length]. lia.
      * intros tag. rewrite H3, bucket_addTags, nodesTagged_cons, Hw.
        by rewrite <- app_assoc.
      * intros Htm. apply H4. by apply noEmptyBucket_addTags.
    + rewrite !(scanStep_idle acc w Hw) in *.
      repeat split; try done.
      intros tag. rewrite H3, nodesTagged_cons, Hw. done.
Qed.

Lemma scanWorkloads_spec workloads :
  (scanWorkloads workloads).1.1 = list_to_set (runningNodes workloads)
  ∧ (scanWorkloads workloads).1.2 = Z.of_nat (length (runningNodes workloads))
  ∧ ∀ tag,
      (scanWorkloads workloads).2 !! tag
      = match nodesTagged workloads tag with
        | [] => None
        | nodes => Some nodes
        end.
Proof.
  unfold scanWorkloads.
  destruct (scan_fold_spec workloads (∅, 0, ∅)) as (H1 & H2 & H3 & H4).
  simpl in *. repeat split.
  - rewrite H1. by rewrite union_empty_r_L.
  - rewrite H2. lia.
  - intros tag. specialize (H3 tag). unfold bucket in H3.
    rewrite lookup_empty in H3. simpl in H3. rewrite <- H3.
    destruct (_ !! tag) as [l|] eqn:E; simpl; [|done].
    destruct l; [|done]. exfalso. eapply H4; [|exact E|done].
    intros t l. by rewrite lookup_empty.
Qed.

Ltac key_ok H :=
  unfold keyPrefix8; rewrite (proj2 (Nat.ltb_ge _ _) H).

Ltac split_ifs :=
  repeat (simpl;
          match goal with
          | |- context [if ?c then _ else _] => destruct c eqn:?
          | |- context [match ?c with Some _ => _ | None => _ end] =>
              destruct c eqn:?
          end).

Lemma updateCache_absent k ws w :
  workloadCache (server w) !! k = None →
  updateCache k ws w
  = Ok tt (withTrace (EvUnlock cacheLock :: EvLock cacheLock :: trace w) w).
Proof.
  intros H. unfold updateCache, withTrace. munfold. simpl. by rewrite H.
Qed.

Lemma updateCache_present k ws w c :
  workloadCache (server w) !! k = Some c →
  (8 ≤ String.length k)%nat →
  updateCache k ws w = Ok tt (updatedWorld k ws c w).
Proof.
  intros H Hk. unfold updateCache, updatedWorld, updatedCache. munfold. simpl.
  rewrite H. destruct (scanWorkloads (elems ws)) as [[nn rc] tm].
  key_ok Hk. unfold timeNow. munfold. split_ifs; reflexivity.
Qed.

Lemma elem_of_nodesTagged workloads tag node :
  node ∈ nodesTagged workloads tag
  ↔ ∃ wl, wl ∈ workloads ∧ isRunning wl = true ∧ Node wl = node
          ∧ tag ∈ elems (Tags wl).
Proof.
  unfold nodesTagged. rewrite list_elem_of_bind. split.
  - intros (wl & Hin & Hwl). exists wl. destruct (isRunning wl); [|by inversion Hin].
    apply list_elem_of_fmap in Hin as (t & -> & Ht).
    apply list_elem_of_filter in Ht as [-> Ht]. done.
  - intros (wl & Hwl & Hrun & <- & Ht). exists wl. rewrite Hrun. split; [|done].
    apply list_elem_of_fmap. exists tag. split; [done|].
    apply list_elem_of_filter. done.
Qed.

(** C6, as the claim states it, fails for a tenant without a registry
    entry: [updateCache] returns at its guard and stores nothing. *)
Lemma updateCache_without_registry :
  let w := startWorld upstreamDown tickingClock in
  let w' := after (updateCache tenant (Some [wlA])) w in
  workloadCache (server w) !! tenant = None
  ∧ ¬ (∃ c tagMap,
          workloadCache (server w') !! tenant = Some c
          ∧ Workloads c = Some [wlA]
          ∧ tagMappings (server w') !! tenant = Some tagMap
          ∧ tagMap !! "t" = Some ["node-a"]).
Proof.
  split; [reflexivity|].
  intros (c & tagMap & Hc & _). vm_compute in Hc. discriminate.
Qed.

(** C6 (amended).  For a tenant that has a registry entry (and a key of at
    least 8 bytes, which the log lines of [updateCache] slice), [updateCache]
    returns, stores the given workload list in the entry, stamps
    [LastFetch] with a fresh clock reading, keeps the entry's other fields,
    and replaces the tenant's tag index by the map that sends each tag to the
    nodes of the running workloads carrying it, in list order; a node is in a
    tag's bucket exactly when a running workload of the list has that node and
    that tag; the running count is the number of running workloads; a
    workload that is not running changes neither the count nor the tag map;
    the in-flight table and the other tenants' entries are untouched.  For a
    tenant without a registry entry, [updateCache] changes no table. *)
Theorem updateCache_replaces_registry (apiKey : string)
  (workloads : slice Workload) (w : World) :
  (∀ c, (8 ≤ String.length apiKey)%nat →
     workloadCache (server w) !! apiKey = Some c →
     ∃ w' tagMap,
       updateCache apiKey workloads w = Ok tt w'
       ∧ workloadCache (server w') !! apiKey
         = Some (mkCache workloads (clock w (clockReads w)) (LastAccess c)
                         (StopRefresh c) (addr c))
       ∧ clockReads w' = S (clockReads w)
       ∧ tagMappings (server w') !! apiKey = Some tagMap
       ∧ (∀ tag, tagMap !! tag
                 = match nodesTagged (elems workloads) tag with
                   | [] => None
                   | nodes => Some nodes
                   end)
       ∧ (∀ tag node,
            node ∈ bucket tagMap tag
            ↔ ∃ wl, wl ∈ elems workloads ∧ isRunning wl = true
                    ∧ Node wl = node ∧ tag ∈ elems (Tags wl))
       ∧ (scanWorkloads (elems workloads)).1.2
         = Z.of_nat (length (filter (λ wl, isRunning wl = true)
                               (elems workloads)))
       ∧ (∀ acc wl, isRunning wl = false → scanStep acc wl = acc)
       ∧ inFlightRequests (server w') = inFlightRequests (server w)
       ∧ (∀ k, k ≠ apiKey →
               workloadCache (server w') !! k = workloadCache (server w) !! k
               ∧ tagMappings (server w') !! k = tagMappings (server w) !! k))
  ∧ (workloadCache (server w) !! apiKey = None →
     ∃ w', updateCache apiKey workloads w = Ok tt w' ∧ server w' = server w).
Proof.
  split.
  - intros c Hk Hc. rewrite (updateCache_present _ _ _ _ Hc Hk).
    destruct (scanWorkloads_spec (elems workloads)) as (_ & Hcount & Htags).
    eexists _, _. split; [reflexivity|]. unfold updatedWorld. simpl.
    rewrite !lookup_insert_eq. repeat split; try done.
    + intros Hin. apply elem_of_nodesTagged. unfold bucket in Hin.
      rewrite Htags in Hin. by destruct (nodesTagged _ _).
    + intros Hin. apply elem_of_nodesTagged in Hin. unfold bucket.
      rewrite Htags. by destruct (nodesTagged _ _).
    + rewrite Hcount. unfold runningNodes. by rewrite length_fmap.
    + intros acc wl. apply scanStep_idle.
    + by rewrite lookup_insert_ne.
    + by rewrite lookup_insert_ne.
  - intros Hc. rewrite (updateCache_absent _ _ _ Hc). eauto.
Qed.

Lemma updateCache_replaces_registry_witness :
  let w := worldWithRegistry upstreamDown in
  let workloads := Some [wlA; wlStopped; wlB; wlOff; wlC] in
  (8 ≤ String.length tenant)%nat
  ∧ is_Some (workloadCache (server w) !! tenant)
  ∧ ∃ w' tagMap,
      updateCache tenant workloads w = Ok tt w'
      ∧ (Workloads <$> workloadCache (server w') !! tenant) = Some workloads
      ∧ tagMappings (server w') !! tenant = Some tagMap
      ∧ tagMap !! "t" = Some ["node-a"; "node-b"]
      ∧ tagMap !! "fast" = Some ["node-a"]
      ∧ tagMap !! "slow" = None.
Proof.
  intros w workloads.
  assert (Hk : (8 ≤ String.length tenant)%nat) by (vm_compute; lia).
  assert (Hc : workloadCache (server w) !! tenant
               = Some (mkCache None zeroTime 0 (Some false) 0))
    by (vm_compute; reflexivity).
  split; [exact Hk|]. split; [by eexists|].
  destruct (updateCache_replaces_registry tenant workloads w) as [Hpresent _].
  destruct (Hpresent _ Hk Hc)
    as (w' & tagMap & Hrun & Hcache & _ & Htm & Htags & _).
  exists w', tagMap. rewrite Hcache, !Htags.
  repeat split; [exact Hrun | exact Htm].
Defined.

(** ** The refresh task *)

Lemma hasActiveRequests_false s k :
  hasActiveRequests s k = false ↔ ∀ n, countOf s k n ≤ 0.
Proof.
  unfold hasActiveRequests, countOf.
  destruct (inFlightRequests s !! k) as [m|]; simpl; [|by split].
  rewrite bool_decide_eq_false. split.
  - intros Hno n. destruct (m !! n) as [c|] eqn:E; simpl; [|lia].
    destruct (decide (0 < c)); [|lia]. exfalso. apply Hno.
    apply map_Exists_lookup. eauto.
  - intros Hall (n & c & Hn & Hc)%map_Exists_lookup.
    specialize (Hall n). rewrite Hn in Hall. simpl in *. lia.
Qed.

Lemma hasActiveRequests_true s k :
  hasActiveRequests s k = true ↔ ∃ n, 0 < countOf s k n.
Proof.
  split.
  - unfold hasActiveRequests, countOf.
    destruct (inFlightRequests s !! k) as [m|]; simpl; [|done].
    rewrite bool_decide_eq_true.
    intros (n & c & Hn & Hc)%map_Exists_lookup. exists n. by rewrite Hn.
  - intros [n Hn]. destruct (hasActiveRequests s k) eqn:E; [done|].
    apply hasActiveRequests_false with (n := n) in E. lia.
Qed.

Lemma refreshIteration_evicts k w c :
  (8 ≤ String.length k)%nat →
  workloadCache (server w) !! k = Some c →
  180 * second < clock w (clockReads w) - LastAccess c →
  hasActiveRequests (server w) k = false →
  refreshIteration k w
  = Ok Return
      (mkWorld
         (mkServer (delete k (workloadCache (server w)))
                   (inFlightRequests (server w))
                   (delete k (tagMappings (server w))))
         (logLevel w) (upstream w) (clock w) (fetchCalls w) (S (clockReads w))
         (nextAddr w)
         (EvUnlock cacheLock :: EvLock cacheLock :: EvRUnlock requestLock
            :: EvRLock requestLock :: EvRUnlock cacheLock :: EvRLock cacheLock
            :: trace w)).
Proof.
  intros Hk Hc Hidle Hact. unfold refreshIteration. munfold. simpl.
  rewrite Hc. simpl. rewrite Hact. unfold timeNow, sinceExceeds. simpl.
  replace (180 * second <? clock w (clockReads w) - LastAccess c) with true
    by lia.
  simpl. key_ok Hk. simpl. rewrite Hc.
  destruct (decide (addr c = addr c)); [|done]. reflexivity.
Qed.

Lemma refreshIteration_fetches k w c :
  (8 ≤ String.length k)%nat →
  workloadCache (server w) !! k = Some c →
  clock w (clockReads w) - LastAccess c ≤ 180 * second
  ∨ hasActiveRequests (server w) k = true →
  let w1 :=
    mkWorld (server w) (logLevel w) (upstream w) (clock w) (S (fetchCalls w))
      (S (clockReads w)) (nextAddr w)
      (EvRUnlock requestLock :: EvRLock requestLock :: EvRUnlock cacheLock
         :: EvRLock cacheLock :: trace w) in
  refreshIteration k w
  = Ok Select
      match upstream w (fetchCalls w) k with
      | FetchOk workloads => updatedWorld k workloads c w1
      | FetchErr _ => w1
      end.
Proof.
  intros Hk Hc Hcond. unfold refreshIteration. munfold. simpl.
  rewrite Hc. simpl. unfold timeNow, sinceExceeds. simpl.
  assert ((180 * second <? clock w (clockReads w) - LastAccess c)
          && negb (hasActiveRequests (server w) k) = false) as ->.
  { destruct Hcond as [H| ->]; [|by rewrite andb_false_r].
    replace (180 * second <? _) with false by lia. done. }
  key_ok Hk.
  destruct ((60 * second <? _) && _); simpl; unfold fetchWorkloads; simpl;
    destruct (upstream w (fetchCalls w) k) as [workloads|e]; simpl;
    try reflexivity.
  all: erewrite updateCache_present by (simpl; eauto); reflexivity.
Qed.

(** C3.  One pass of the refresh task for a tenant whose registry entry
    exists, with [idle] the time since [LastAccess] at the pass's clock
    reading.  If [idle] exceeds 180 s and no (tenant, node) in-flight count
    is positive, the pass returns (the task terminates) without fetching,
    and the registry entry and the tag index of the tenant are removed.
    Otherwise (idle at most 180 s, or some count positive) the pass reaches
    its [select] after exactly one fetch: a successful fetch, empty or not,
    is stored by [updateCache]; a failed one leaves the tables as they
    were.  In particular, for idle in (60 s, 180 s] with no in-flight
    request the registry is retained and the fetch is performed. *)
Theorem refreshIteration_idle_eviction (apiKey : string) (w : World)
  (c : WorkloadCache) :
  (8 ≤ String.length apiKey)%nat →
  workloadCache (server w) !! apiKey = Some c →
  let idle := clock w (clockReads w) - LastAccess c in
  (180 * second < idle →
   (∀ node, countOf (server w) apiKey node ≤ 0) →
   ∃ w', refreshIteration apiKey w = Ok Return w'
         ∧ workloadCache (server w') !! apiKey = None
         ∧ tagMappings (server w') !! apiKey = None
         ∧ fetchCalls w' = fetchCalls w)
  ∧ (idle ≤ 180 * second ∨ (∃ node, 0 < countOf (server w) apiKey node) →
     ∃ w', refreshIteration apiKey w = Ok Select w'
           ∧ fetchCalls w' = S (fetchCalls w)
           ∧ match upstream w (fetchCalls w) apiKey with
             | FetchOk workloads =>
                 workloadCache (server w') !! apiKey
                 = Some (updatedCache workloads (clock w (S (clockReads w))) c)
                 ∧ tagMappings (server w') !! apiKey
                   = Some (scanWorkloads (elems workloads)).2
             | FetchErr _ => server w' = server w
             end)
  ∧ (60 * second < idle ≤ 180 * second →
     (∀ node, countOf (server w) apiKey node ≤ 0) →
     ∃ w' c', refreshIteration apiKey w = Ok Select w'
              ∧ workloadCache (server w') !! apiKey = Some c'
              ∧ fetchCalls w' = S (fetchCalls w)).
Proof.
  intros Hk Hc idle. subst idle. repeat split.
  - intros Hidle Hnone. apply hasActiveRequests_false in Hnone.
    rewrite (refreshIteration_evicts _ _ _ Hk Hc Hidle Hnone).
    eexists. split; [reflexivity|]. simpl. by rewrite !lookup_delete_eq.
  - intros Hcond.
    assert (Hcond' : clock w (clockReads w) - LastAccess c ≤ 180 * second
                     ∨ hasActiveRequests (server w) apiKey = true).
    { destruct Hcond as [?|Hn]; [by left|right].
      by apply hasActiveRequests_true. }
    rewrite (refreshIteration_fetches _ _ _ Hk Hc Hcond').
    eexists. split; [reflexivity|].
    destruct (upstream w (fetchCalls w) apiKey); simpl; [|done].
    by rewrite !lookup_insert_eq.
  - intros [_ Hidle] _.
    rewrite (refreshIteration_fetches _ _ _ Hk Hc (or_introl Hidle)).
    destruct (upstream w (fetchCalls w) apiKey); simpl.
    + eexists _, _. split; [reflexivity|]. simpl. by rewrite lookup_insert_eq.
    + eexists _, _. split; [reflexivity|]. simpl. eauto.
Qed.

Lemma refreshIteration_idle_eviction_witness :
  let c := mkCache None zeroTime 0 (Some false) 0 in
  let late := atTime (181 * second) (worldWithRegistry (upstreamOf (Some []))) in
  let soon := atTime (180 * second) (worldWithRegistry (upstreamOf (Some []))) in
  (8 ≤ String.length tenant)%nat
  ∧ workloadCache (server late) !! tenant = Some c
  ∧ (∃ w', refreshIteration tenant late = Ok Return w'
           ∧ workloadCache (server w') !! tenant = None
           ∧ tagMappings (server w') !! tenant = None
           ∧ fetchCalls w' = fetchCalls late)
  ∧ (∃ w' c', refreshIteration tenant soon = Ok Select w'
              ∧ workloadCache (server w') !! tenant = Some c'
              ∧ fetchCalls w' = S (fetchCalls soon)).
Proof.
  intros c late soon.
  assert (Hk : (8 ≤ String.length tenant)%nat) by (vm_compute; lia).
  assert (Hlate : workloadCache (server late) !! tenant = Some c)
    by (vm_compute; reflexivity).
  assert (Hsoon : workloadCache (server soon) !! tenant = Some c)
    by (vm_compute; reflexivity).
  split; [exact Hk|]. split; [exact Hlate|]. split.
  - destruct (refreshIteration_idle_eviction tenant late c Hk Hlate)
      as (Hevict & _ & _).
    apply Hevict; [by vm_compute|].
    intros node. by vm_compute.
  - destruct (refreshIteration_idle_eviction tenant soon c Hk Hsoon)
      as (_ & _ & Hkeep).
    apply Hkeep; [by vm_compute|].
    intros node. by vm_compute.
Defined.

(** ** [updateLastAccess], [startCacheRefresh], [getWorkloads] *)

Ltac dsimp :=
  repeat (progress (simpl; rewrite ?lookup_insert_eq, ?decide_True by done)).

Lemma updateLastAccess_run k w :
  updateLastAccess k w = Ok tt (touchedWorld k w).
Proof.
  unfold updateLastAccess, touchedWorld, withTrace, timeNow. munfold. simpl.
  by destruct (workloadCache (server w) !! k).
Qed.

Lemma startCacheRefresh_run k w :
  (8 ≤ String.length k)%nat →
  startCacheRefresh k w = Ok tt (startedWorld k w).
Proof.
  intros Hk. unfold startCacheRefresh, startedWorld, timeNow, freshAddr.
  munfold. simpl.
  destruct (workloadCache (server w) !! k) as [c|]; simpl.
  - destruct c as [ws lf la [stop|] a]; simpl; key_ok Hk; reflexivity.
  - key_ok Hk. reflexivity.
Qed.

Lemma touchedWorld_cache k w c :
  workloadCache (server w) !! k = Some c →
  workloadCache (server (touchedWorld k w)) !! k
  = Some (setLastAccess (clock w (clockReads w)) c).
Proof.
  intros H. unfold touchedWorld. rewrite H. simpl. by rewrite lookup_insert_eq.
Qed.

Lemma touchedWorld_fetch k w :
  upstream (touchedWorld k w) = upstream w
  ∧ fetchCalls (touchedWorld k w) = fetchCalls w.
Proof. unfold touchedWorld. by destruct (_ !! k). Qed.

Lemma deref_run k c w :
  deref k c w
  = Ok (match workloadCache (server w) !! k with
        | Some c' => if decide (addr c' = addr c) then c' else c
        | None => c
        end) w.
Proof. reflexivity. Qed.

(** C4.  When the upstream fetch that [getWorkloads] would perform fails:
    if the tenant has a registry entry with a non-empty workload list, that
    list is returned with no error; if the tenant has no registry entry, or
    an entry whose list is nil or empty, the fetch error is returned. *)
Theorem getWorkloads_fallback (apiKey : string) (w : World) (e : string) :
  (8 ≤ String.length apiKey)%nat →
  upstream w (fetchCalls w) apiKey = FetchErr e →
  (∀ c workloads,
     workloadCache (server w) !! apiKey = Some c →
     Workloads c = Some workloads → workloads ≠ [] →
     ∃ w', getWorkloads apiKey w = Ok (Val (Some workloads)) w')
  ∧ (workloadCache (server w) !! apiKey = None
     ∨ (∃ c, workloadCache (server w) !! apiKey = Some c
             ∧ elems (Workloads c) = []) →
     ∃ w', getWorkloads apiKey w = Ok (Err e) w').
Proof.
  destruct w as [[wc ifr tm] lvl up ck fc cr na tr]. simpl.
  intros Hk Hup. split.
  - intros c workloads Hc Hws Hne. unfold getWorkloads. munfold. simpl.
    rewrite updateLastAccess_run, Hc. unfold touchedWorld, setLastAccess.
    simpl. rewrite Hc. simpl. rewrite ?deref_run. dsimp. rewrite Hws. dsimp.
    rewrite bool_decide_eq_false_2 by done. unfold timeNow. dsimp.
    destruct (negb (existsb isRunning workloads) || _); dsimp.
    + key_ok Hk. unfold fetchWorkloads. dsimp. rewrite Hup. dsimp. eauto.
    + eauto.
  - intros [Hc | (c & Hc & Hempty)]; unfold getWorkloads; munfold; simpl;
      rewrite updateLastAccess_run, Hc; unfold touchedWorld, setLastAccess;
      simpl; rewrite Hc; simpl.
    + rewrite startCacheRefresh_run by done. unfold fetchWorkloads.
      unfold startedWorld. simpl. rewrite Hc. simpl. rewrite Hup. eauto.
    + rewrite ?deref_run. dsimp.
      rewrite bool_decide_eq_true_2 by done. unfold fetchWorkloads. simpl.
      rewrite Hup. eauto.
Qed.

Lemma getWorkloads_fallback_witness :
  let w := worldWithStaleSnapshot (Some [wlA; wlStopped]) in
  let w0 := startWorld upstreamDown tickingClock in
  (8 ≤ String.length tenant)%nat
  ∧ upstream w (fetchCalls w) tenant = FetchErr "connection refused"
  ∧ (∃ w', getWorkloads tenant w = Ok (Val (Some [wlA; wlStopped])) w')
  ∧ (∃ w', getWorkloads tenant w0 = Ok (Err "connection refused") w').
Proof.
  intros w w0.
  assert (Hk : (8 ≤ String.length tenant)%nat) by (vm_compute; lia).
  split; [exact Hk|]. split; [reflexivity|]. split.
  - destruct (getWorkloads_fallback tenant w "connection refused" Hk eq_refl)
      as [Hcached _].
    apply (Hcached (mkCache (Some [wlA; wlStopped]) second 0 (Some false) 0));
      [by vm_compute | reflexivity | done].
  - destruct (getWorkloads_fallback tenant w0 "connection refused" Hk eq_refl)
      as [_ Herr].
    apply Herr. left. by vm_compute.
Defined.

(** ** Least-busy selection *)

Lemma selectLoop_snoc s k nodes n :
  selectLoop s k (nodes ++ [n]) = selectStep s k (selectLoop s k nodes) n.
Proof. unfold selectLoop. by rewrite foldl_app. Qed.

Lemma selectLoop_spec s k nodes :
  nodes ≠ [] →
  (∀ n, n ∈ nodes → 0 ≤ countOf s k n) →
  (selectLoop s k nodes).2 = countOf s k (selectLoop s k nodes).1
  ∧ firstMinimum (countOf s k) nodes (selectLoop s k nodes).1.
Proof.
  induction nodes as [|n nodes IH] using rev_ind; [done|].
  intros _ Hpos. rewrite selectLoop_snoc.
  destruct (decide (nodes = [])) as [->|Hne].
  - simpl. split; [done|]. exists 0%nat. repeat split.
    + intros [|j] n'; simpl; [|done]. by intros [= ->].
    + lia.
  - destruct IH as (Hmin & i & Hi & Hle & Hlt); [done| |].
    { intros n' Hn'. apply Hpos. apply elem_of_app. by left. }
    destruct (selectLoop s k nodes) as [sel m] eqn:Hsel. cbn [fst snd] in *.
    subst m.
    assert (0 ≤ countOf s k sel).
    { apply Hpos. apply elem_of_app. left. by eapply list_elem_of_lookup_2. }
    unfold selectStep.
    replace (countOf s k sel =? -1) with false by lia. simpl.
    destruct (countOf s k n <? countOf s k sel) eqn:E; simpl.
    + split; [done|]. exists (length nodes). repeat split.
      * by rewrite list_lookup_middle.
      * intros j n' Hj. apply lookup_app_Some in Hj as [Hj|[_ Hj]].
        -- specialize (Hle _ _ Hj). lia.
        -- destruct (j - length nodes)%nat; simpl in Hj; [|done].
           injection Hj as ->. lia.
      * intros j n' Hlt' Hj. rewrite lookup_app_l in Hj by done.
        specialize (Hle _ _ Hj). lia.
    + split; [done|]. exists i. repeat split.
      * rewrite lookup_app_l; [done|]. by eapply lookup_lt_Some.
      * intros j n' Hj. apply lookup_app_Some in Hj as [Hj|[_ Hj]].
        -- by eapply Hle.
        -- destruct (j - length nodes)%nat; simpl in Hj; [|done].
           injection Hj as ->. lia.
      * intros j n' Hlt' Hj. eapply Hlt; [done|].
        rewrite lookup_app_l in Hj; [done|].
        apply lookup_lt_Some in Hi. lia.
Qed.

Lemma selectLoop_ext s s' k nodes :
  (∀ n, countOf s k n = countOf s' k n) →
  selectLoop s k nodes = selectLoop s' k nodes.
Proof.
  intros H. unfold selectLoop. generalize (""%string, -1).
  induction nodes as [|n nodes IH]; intros acc; simpl; [done|].
  rewrite IH. f_equal. unfold selectStep. destruct acc. by rewrite H.
Qed.

Lemma forceRefreshWorkloads_run k w :
  (8 ≤ String.length k)%nat →
  forceRefreshWorkloads k w = Ok (forcedResult k w) (forcedWorld k w).
Proof.
  intros Hk. unfold forceRefreshWorkloads, forcedResult, forcedWorld.
  munfold. key_ok Hk. unfold fetchWorkloads. simpl.
  destruct (upstream w (fetchCalls w) k) as [ws|e]; [|reflexivity].
  destruct (workloadCache (server w) !! k) as [c|] eqn:Hc.
  - erewrite updateCache_present by (simpl; eauto). simpl.
    rewrite lookup_insert_eq. reflexivity.
  - rewrite updateCache_absent by done. simpl. rewrite Hc.
    rewrite startCacheRefresh_run by done. reflexivity.
Qed.

Lemma forcedWorld_counts k w :
  inFlightRequests (server (forcedWorld k w)) = inFlightRequests (server w).
Proof.
  unfold forcedWorld, startedWorld, updatedWorld.
  destruct (upstream w (fetchCalls w) k); [|done].
  destruct (workloadCache (server w) !! k) eqn:E; simpl; [done|].
  by rewrite E.
Qed.

Lemma forcedWorld_server_trace k t w :
  server (forcedWorld k (withTrace t w)) = server (forcedWorld k w).
Proof.
  unfold forcedWorld, withTrace, startedWorld, updatedWorld. simpl.
  destruct (upstream w (fetchCalls w) k); [|done].
  destruct (workloadCache (server w) !! k) eqn:E; simpl; rewrite ?E; done.
Qed.

Lemma selectionWorld_counts k w n :
  countOf (server (selectionWorld k w)) k n = countOf (server w) k n.
Proof.
  unfold selectionWorld. destruct (registryHasRunning _ _); [done|].
  destruct (decide (8 ≤ String.length k)%nat) as [Hk|Hk].
  - unfold after. rewrite forceRefreshWorkloads_run by done. simpl.
    unfold countOf. by rewrite forcedWorld_counts.
  - unfold after, forceRefreshWorkloads, keyPrefix8. munfold.
    destruct (String.length k <? 8)%nat eqn:E; [done|].
    apply Nat.ltb_ge in E. lia.
Qed.

Lemma countOf_fresh_table s k n :
  inFlightRequests s !! k = None →
  countOf (setInFlightRequests (<[k := ∅]> (inFlightRequests s)) s) k n
  = countOf s k n.
Proof.
  intros H. unfold countOf. simpl. rewrite lookup_insert_eq, H. simpl.
  by rewrite lookup_empty.
Qed.

Lemma GetLeastBusyNode_run k tag w :
  registryHasRunning (server w) k = true
  ∨ ((8 ≤ String.length k)%nat
     ∧ ∃ ws, upstream w (fetchCalls w) k = FetchOk ws) →
  ∃ w', GetLeastBusyNode k tag w
        = Ok (selectionResult (server (selectionWorld k w)) k tag) w'
        ∧ ∀ n, countOf (server w') k n = countOf (server w) k n.
Proof.
  intros Hrefresh.
  assert (Hphase2 : ∀ w1 : World,
    ∃ w', (RLock requestLock;;
           deferred (RUnlock requestLock) (
             RLock cacheLock;;
             deferred (RUnlock cacheLock) (
               s ← getS;
               match candidateNodes s k tag with
               | Err e => mret (Err e)
               | Val [] => mret (Err "no active nodes found")
               | Val nodes =>
                   (if inFlightRequests s !! k is None then
                      RUnlock requestLock;;
                      Lock requestLock;;
                      putS (setInFlightRequests
                              (<[k := ∅]> (inFlightRequests s)) s);;
                      Unlock requestLock;;
                      RLock requestLock
                    else mret tt);;
                   s ← getS;
                   mret (Val (selectLoop s k nodes).1)
               end))) w1
          = Ok (selectionResult (server w1) k tag) w'
          ∧ ∀ n, countOf (server w') k n = countOf (server w1) k n).
  { intros w1. unfold selectionResult. munfold. simpl.
    destruct (candidateNodes (server w1) k tag) as [[|n0 nodes]|e]; simpl;
      try (eexists; split; [reflexivity|done]).
    destruct (inFlightRequests (server w1) !! k) eqn:E; simpl.
    - eexists; split; [reflexivity|done].
    - erewrite (selectLoop_ext _ (server w1))
        by (intros n; by apply (countOf_fresh_table (server w1))).
      eexists; split; [reflexivity|].
      intros n; simpl; by apply (countOf_fresh_table (server w1)). }
  unfold GetLeastBusyNode.
  match type of Hphase2 with
  | ∀ w1, ∃ w', ?p w1 = _ ∧ _ => set (phase2 := p) in *
  end.
  unfold mbind, M_bind, mret, M_ret, getS, RLock, RUnlock, emit. simpl.
  unfold selectionWorld, registryHasRunning in *.
  destruct (match workloadCache (server w) !! k with
            | Some cache => existsb isRunning (elems (Workloads cache))
            | None => false
            end) eqn:Hrun.
  - destruct (Hphase2 (mkWorld (server w) (logLevel w) (upstream w) (clock w)
                         (fetchCalls w) (clockReads w) (nextAddr w)
                         (EvRUnlock cacheLock :: EvRLock cacheLock :: trace w)))
      as (w' & Hrun2 & Hcount).
    exists w'. split; [exact Hrun2 | exact Hcount].
  - destruct Hrefresh as [|[Hk [ws Hws]]]; [done|].
    key_ok Hk. unfold mret, M_ret. simpl.
    rewrite forceRefreshWorkloads_run by done.
    unfold after. rewrite forceRefreshWorkloads_run by done.
    unfold forcedResult. simpl. rewrite Hws.
    match goal with
    | |- ∃ w', phase2 ?w1 = _ ∧ _ =>
        destruct (Hphase2 w1) as (w' & Hrun2 & Hcount)
    end.
    exists w'. split.
    + rewrite Hrun2.
      pose proof (forcedWorld_server_trace k
                    (EvRUnlock cacheLock :: EvRLock cacheLock :: trace w) w)
        as Hs.
      unfold withTrace in Hs. by rewrite Hs.
    + intros n. rewrite Hcount. unfold countOf.
      by rewrite forcedWorld_counts.
Qed.

Lemma candidateNodes_order s k tag nodes :
  candidateNodes s k tag = Val nodes →
  if bool_decide (tag = "all")
  then ∃ c workloads,
         workloadCache s !! k = Some c ∧ Workloads c = Some workloads
         ∧ nodes = Node <$> filter (λ wl, isRunning wl = true) workloads
  else ∃ tagMap, tagMappings s !! k = Some tagMap ∧ tagMap !! tag = Some nodes.
Proof.
  unfold candidateNodes. destruct (bool_decide (tag = "all")).
  - destruct (workloadCache s !! k) as [c|]; [|done].
    destruct (Workloads c) as [ws|] eqn:E; [|done].
    intros [= <-]. eauto.
  - destruct (tagMappings s !! k) as [tm|]; [|done].
    destruct (tm !! tag) as [[|n ns]|] eqn:E; try done.
    intros [= <-]. eauto.
Qed.



(** The tie-break example of the specification: tag [t] maps to node-a and
    node-b, both idle; the first call selects node-a, and once node-a has one
    request in flight the next call selects node-b; for "all", the running
    nodes are scanned in upstream order. *)
Example tie_break_first :
  let w := worldWithStaleSnapshot (Some [wlOff; wlA; wlStopped; wlB; wlC]) in
  (∃ w', GetLeastBusyNode tenant "t" w = Ok (Val "node-a") w')
  ∧ (∃ w', GetLeastBusyNode tenant "t"
             (after (TrackRequest tenant "node-a" 1) w)
           = Ok (Val "node-b") w')
  ∧ (∃ w', GetLeastBusyNode tenant "all"
             (after (TrackRequest tenant "node-b" 1)
                (after (TrackRequest tenant "node-a" 1) w))
           = Ok (Val "node-c") w').
Proof. repeat split; eexists; vm_compute; reflexivity. Qed.

(** ** Forwarding: [HandleProxyRequest] *)

Lemma dumpIfDebug_run w : dumpIfDebug w = Ok tt (dumpedWorld w).
Proof.
  unfold dumpIfDebug, DumpInFlightRequests, dumpedWorld, withTrace. munfold.
  simpl. destruct w as [s [] up ck fc cr na tr]; reflexivity.
Qed.

Lemma HandleProxyRequest_unbuilt net r node k w err :
  newRequestErr net = Some err →
  HandleProxyRequest net r node k w
  = Ok (httpError err StatusInternalServerError) w.
Proof. intros H. unfold HandleProxyRequest. by rewrite H. Qed.

Lemma HandleProxyRequest_run net r node k w :
  newRequestErr net = None →
  HandleProxyRequest net r node k w
  = Ok (forwardedReply net) (forwardedWorld r node k w).
Proof.
  intros H. unfold HandleProxyRequest, forwardedReply, forwardedWorld.
  rewrite H. munfold. rewrite TrackRequest_run. fold (trackedWorld k node 1 w).
  rewrite dumpIfDebug_run. fold (targetURLOf r node).
  destruct (doResult net) as [resp|err]; simpl;
    rewrite TrackRequest_run; rewrite dumpIfDebug_run; reflexivity.
Qed.

(** C5, as the claim states it, fails when the outbound request cannot be
    constructed: the reply then carries status 500, not 502. *)
Lemma HandleProxyRequest_unbuilt_is_500 :
  let net := mkNet (Some "net/http: invalid method") (Val sampleResponse)
                   true None in
  let w := startWorld upstreamDown tickingClock in
  ∃ reply w',
    HandleProxyRequest net (sampleRequest "/foo") "node-a" tenant w
    = Ok reply w'
    ∧ status reply = 500 ∧ status reply ≠ StatusBadGateway.
Proof. eexists _, _. split; [reflexivity|]. by vm_compute. Qed.

(** C5 (amended).  In [HandleProxyRequest], failure to construct the
    outbound request is answered with status 500 and the construction
    error, before any counter is touched; a transport-level failure of the
    outbound call is answered with status 502 and the transport error. *)
Theorem HandleProxyRequest_failure_status (net : Net) (r : Request)
  (node apiKey : string) (w : World) :
  (∀ err, newRequestErr net = Some err →
          HandleProxyRequest net r node apiKey w
          = Ok (mkReply StatusInternalServerError (ErrorText err)) w)
  ∧ (∀ err, newRequestErr net = None → doResult net = Err err →
            ∃ w', HandleProxyRequest net r node apiKey w
                  = Ok (mkReply StatusBadGateway (ErrorText err)) w').
Proof.
  split.
  - intros err H. by apply HandleProxyRequest_unbuilt.
  - intros err H Hdo. rewrite HandleProxyRequest_run by done.
    unfold forwardedReply. rewrite Hdo. eauto.
Qed.

Lemma HandleProxyRequest_failure_status_witness :
  let unbuilt := mkNet (Some "net/http: invalid method") (Val sampleResponse)
                       true None in
  let unreachable := mkNet None (Err "dial tcp: connection refused") true None in
  let w := startWorld upstreamDown tickingClock in
  HandleProxyRequest unbuilt (sampleRequest "/foo") "node-a" tenant w
  = Ok (mkReply 500 (ErrorText "net/http: invalid method")) w
  ∧ ∃ w', HandleProxyRequest unreachable (sampleRequest "/foo") "node-a"
            tenant w
          = Ok (mkReply 502 (ErrorText "dial tcp: connection refused")) w'.
Proof.
  intros unbuilt unreachable w. split.
  - apply (HandleProxyRequest_failure_status unbuilt (sampleRequest "/foo")
             "node-a" tenant w). reflexivity.
  - apply (HandleProxyRequest_failure_status unreachable (sampleRequest "/foo")
             "node-a" tenant w); reflexivity.
Defined.

Lemma countOf_withCount_ne k n v s k' n' :
  (k', n') ≠ (k, n) → countOf (withCount k n v s) k' n' = countOf s k' n'.
Proof.
  intros Hne. unfold countOf, withCount. simpl.
  destruct (decide (k' = k)) as [->|Hk].
  - rewrite lookup_insert_eq. simpl.
    rewrite lookup_insert_ne by congruence.
    by destruct (inFlightRequests s !! k).
  - by rewrite lookup_insert_ne.
Qed.

Lemma dumpedWorld_server w : server (dumpedWorld w) = server w.
Proof. unfold dumpedWorld. by destruct (logLevel w). Qed.

Lemma calls_dumped w t :
  calls (trace w) = t → calls (trace (dumpedWorld w)) = t.
Proof. unfold dumpedWorld. by destruct (logLevel w). Qed.

Lemma trace_dumped w :
  ∃ t, trace (dumpedWorld w) = t ++ trace w ∧ calls t = [].
Proof.
  unfold dumpedWorld. destruct (logLevel w); simpl;
    first [ by exists [] | by eexists [_; _] ].
Qed.

Lemma trackedCount_down cur :
  0 ≤ cur ≤ GoInt.maxInt → trackedCount cur (-1) = Z.max 0 (cur - 1).
Proof.
  unfold GoInt.maxInt. intros Hc. unfold trackedCount, GoInt.add, GoInt.neg.
  change (- -1) with 1. rewrite (wrap64_id 1) by (by vm_compute).
  rewrite wrap64_id by (unfold GoInt.inRange, GoInt.minInt, GoInt.maxInt; lia).
  simpl. destruct (cur <=? 0) eqn:E1; [lia|].
  destruct (cur <? 1) eqn:E2; [lia|].
  destruct (cur + -1 <? 0) eqn:E3; lia.
Qed.

Lemma trackedCount_bracket c :
  0 ≤ c < GoInt.maxInt → trackedCount (trackedCount c 1) (-1) = c.
Proof.
  intros Hc. rewrite (trackedCount_unit c 1) by (done || by left).
  rewrite trackedCount_down; lia.
Qed.

(** C8.  When the outbound request cannot be built, [HandleProxyRequest]
    returns before the increment and leaves the world as it was.
    Otherwise, whatever the outbound call and the relay of the body do
    (transport error, write error, read error, or success), the call
    returns, its counter adjustments and outbound call are, in order, one
    [TrackRequest] of +1, the outbound call, one [TrackRequest] of -1; the
    in-flight table it leaves is the one these two adjustments produce; the
    count of the (tenant, node) pair equals its value before the call when
    that value is in [0, maxInt), and every other count is unchanged. *)
Theorem HandleProxyRequest_bracket (net : Net) (r : Request)
  (node apiKey : string) (w : World) :
  (∀ err, newRequestErr net = Some err →
          ∃ reply, HandleProxyRequest net r node apiKey w = Ok reply w)
  ∧ (newRequestErr net = None →
     ∃ reply w' t,
       HandleProxyRequest net r node apiKey w = Ok reply w'
       ∧ trace w' = t ++ trace w
       ∧ calls t = [EvTrack apiKey node (-1);
                    EvDo (Method r) (targetURLOf r node);
                    EvTrack apiKey node 1]
       ∧ server w'
         = server (after (TrackRequest apiKey node (-1))
                     (after (TrackRequest apiKey node 1) w))
       ∧ (0 ≤ countOf (server w) apiKey node < GoInt.maxInt →
          countOf (server w') apiKey node = countOf (server w) apiKey node)
       ∧ (∀ k n, (k, n) ≠ (apiKey, node) →
                 countOf (server w') k n = countOf (server w) k n)).
Proof.
  split.
  - intros err H. rewrite (HandleProxyRequest_unbuilt _ _ _ _ _ _ H). eauto.
  - intros H. rewrite HandleProxyRequest_run by done.
    unfold forwardedWorld.
    destruct (trace_dumped (trackedWorld apiKey node 1 w)) as (t1 & Ht1 & Hc1).
    set (w1 := dumpedWorld (trackedWorld apiKey node 1 w)) in *.
    set (w2 := withTrace (EvDo (Method r) (targetURLOf r node) :: trace w1) w1).
    destruct (trace_dumped (trackedWorld apiKey node (-1) w2))
      as (t2 & Ht2 & Hc2).
    assert (Hs1 : server w1 = withCount apiKey node
                    (trackedCount (countOf (server w) apiKey node) 1) (server w))
      by (unfold w1; by rewrite dumpedWorld_server).
    assert (Hs : server (dumpedWorld (trackedWorld apiKey node (-1) w2))
                 = withCount apiKey node
                     (trackedCount (countOf (server w1) apiKey node) (-1))
                     (server w1))
      by (by rewrite dumpedWorld_server).
    eexists _, _,
      (t2 ++ [EvUnlock requestLock; EvLock requestLock;
              EvTrack apiKey node (-1); EvDo (Method r) (targetURLOf r node)]
          ++ t1 ++ [EvUnlock requestLock; EvLock requestLock;
                    EvTrack apiKey node 1]).
    split; [reflexivity|]. repeat split.
    + rewrite Ht2, <- app_assoc. f_equal. simpl. fold w1. rewrite Ht1.
      by rewrite <- app_assoc.
    + unfold calls in *. rewrite !filter_app, Hc1, Hc2. reflexivity.
    + rewrite Hs. unfold after. rewrite !TrackRequest_run. simpl.
      by rewrite Hs1.
    + intros Hc. rewrite Hs, countOf_withCount, Hs1, countOf_withCount.
      by apply trackedCount_bracket.
    + intros k n Hne. rewrite Hs, countOf_withCount_ne by done.
      rewrite Hs1. by apply countOf_withCount_ne.
Qed.

Lemma HandleProxyRequest_bracket_witness :
  let net := mkNet None (Val sampleResponse) true (Some 1%nat) in
  let w := after (TrackRequest tenant "node-a" 1)
             (startWorld upstreamDown tickingClock) in
  newRequestErr net = None
  ∧ 0 ≤ countOf (server w) tenant "node-a" < GoInt.maxInt
  ∧ ∃ reply w',
      HandleProxyRequest net (sampleRequest "/foo") "node-a" tenant w
      = Ok reply w'
      ∧ countOf (server w') tenant "node-a" = 1.
Proof.
  intros net w.
  assert (Hc : 0 ≤ countOf (server w) tenant "node-a" < GoInt.maxInt)
    by (by vm_compute).
  split; [reflexivity|]. split; [exact Hc|].
  destruct (HandleProxyRequest_bracket net (sampleRequest "/foo") "node-a"
              tenant w) as [_ Hb].
  destruct (Hb eq_refl) as (reply & w' & t & Hrun & _ & _ & _ & Hsame & _).
  exists reply, w'. split; [exact Hrun|]. by rewrite (Hsame Hc).
Defined.

(** ** The request handler: credentials *)

Lemma strDrop_nonempty n s :
  (n < String.length s)%nat → strDrop n s ≠ EmptyString.
Proof.
  revert s. induction n as [|n IH]; intros [|c s]; simpl; try lia; [done|].
  intros H. apply IH. lia.
Qed.



(** ** The request handler: paths and indexes *)

Lemma append_cons c a b : String c a +:+ b = String c (a +:+ b).
Proof. reflexivity. Qed.

Lemma append_nil b : EmptyString +:+ b = b.
Proof. reflexivity. Qed.

Lemma cut_append sep s rest :
  cut sep s = None → cut sep (s +:+ String sep rest) = Some (s, rest).
Proof.
  induction s as [|c s IH]; simpl.
  - intros _. by rewrite bool_decide_eq_true_2.
  - destruct (bool_decide (c = sep)); [done|].
    destruct (cut sep s) as [[a b]|]; [done|]. intros _. by rewrite IH.
Qed.

Lemma cut_join sep s : ∀ a b,
  cut sep s = Some (a, b) → a +:+ String sep b = s.
Proof.
  induction s as [|c s IH]; intros a b; simpl; [done|].
  destruct (bool_decide (c = sep)) eqn:E.
  - apply bool_decide_eq_true in E as ->. by intros [= <- <-].
  - destruct (cut sep s) as [[a' b']|]; [|done].
    intros [= <- <-]. rewrite append_cons. f_equal. by apply IH.
Qed.

Lemma SplitN_nonempty s sep n : SplitN s sep (S n) ≠ [].
Proof. destruct n; simpl; [done|]. by destruct (cut sep s) as [[? ?]|]. Qed.

Lemma Join_SplitN s sep n :
  Join (SplitN s sep (S n)) (String sep EmptyString) = s.
Proof.
  revert s. induction n as [|n IH]; intros s; [done|].
  change (SplitN s sep (S (S n)))
    with (match cut sep s with
          | Some (a, b) => a :: SplitN b sep (S n)
          | None => [s]
          end).
  destruct (cut sep s) as [[a b]|] eqn:E; [|done].
  specialize (IH b). pose proof (SplitN_nonempty b sep n) as Hne.
  destruct (SplitN b sep (S n)) as [|p ps] eqn:Hs; [done|].
  change (Join (a :: p :: ps) (String sep EmptyString))
    with (a +:+ String sep EmptyString +:+ Join (p :: ps) (String sep EmptyString)).
  rewrite IH, append_cons, append_nil. by apply cut_join.
Qed.

Lemma parseDigits_no_slash s : ∀ acc v,
  parseDigits s acc = Some v → cut slash s = None.
Proof.
  induction s as [|c s IH]; intros acc v; simpl; [done|].
  destruct (digitOf c) as [d|] eqn:Hd; [|done]. intros H.
  destruct (bool_decide (c = slash)) eqn:E.
  - apply bool_decide_eq_true in E as ->. by vm_compute in Hd.
  - by rewrite (IH _ _ H).
Qed.

Lemma Atoi_no_slash s i : Atoi s = Some i → cut slash s = None.
Proof.
  unfold Atoi. intros H.
  assert (Hcases : (∃ s', (s = String "-"%char s' ∨ s = String "+"%char s')
                          ∧ ∃ v, parseDigits s' 0 = Some v)
                   ∨ ∃ v, parseDigits s 0 = Some v).
  { destruct s as [|c s']; [done|].
    destruct (decide (c = "-"%char)) as [->|Hm].
    - left. exists s'. split; [by left|]. destruct s'; [done|].
      destruct (parseDigits _ 0); [eauto|done].
    - destruct (decide (c = "+"%char)) as [->|Hp].
      + left. exists s'. split; [by right|]. destruct s'; [done|].
        destruct (parseDigits _ 0); [eauto|done].
      + right.
        assert (Hsame : match String c s' with
                        | String "-"%char t => (true, t)
                        | String "+"%char t => (false, t)
                        | _ => (false, String c s')
                        end = (false, String c s')).
        { destruct c as [[] [] [] [] [] [] [] []]; try done. }
        rewrite Hsame in H. destruct (parseDigits _ 0); [eauto|done]. }
  destruct Hcases as [(s' & Hs & v & Hv)|[v Hv]].
  - apply parseDigits_no_slash in Hv. destruct Hs as [-> | ->]; simpl;
      by rewrite Hv.
  - by eapply parseDigits_no_slash.
Qed.

Lemma Atoi_nonempty s i : Atoi s = Some i → s ≠ EmptyString.
Proof. by intros H ->. Qed.

Lemma startedWorld_fetch k w :
  upstream (startedWorld k w) = upstream w
  ∧ fetchCalls (startedWorld k w) = fetchCalls w.
Proof. unfold startedWorld. by destruct (_ !! k). Qed.

Lemma getWorkloads_ok k w :
  (8 ≤ String.length k)%nat →
  (∀ n, (fetchCalls w ≤ n)%nat → ∃ ws, upstream w n k = FetchOk ws) →
  ∃ r w', getWorkloads k w = Ok (Val r) w'
          ∧ upstream w' = upstream w
          ∧ (fetchCalls w ≤ fetchCalls w')%nat.
Proof.
  destruct w as [[wc ifr tm] lvl up ck fc cr na tr]. simpl.
  intros Hk Hup. destruct (Hup fc (le_n _)) as [ws Hws].
  unfold getWorkloads. munfold. simpl.
  rewrite updateLastAccess_run. unfold touchedWorld, setLastAccess. simpl.
  destruct (wc !! k) as [c|] eqn:Hc; simpl.
  - rewrite ?deref_run. dsimp.
    destruct (bool_decide (elems (Workloads c) = [])); simpl.
    + unfold fetchWorkloads. simpl. rewrite Hws.
      erewrite updateCache_present by (simpl; first [apply lookup_insert_eq | done]).
      rewrite startCacheRefresh_run by done.
      eexists _, _. split; [reflexivity|].
      destruct (startedWorld_fetch k
                  (updatedWorld k ws
                     (mkCache (Workloads c) (LastFetch c) (ck cr)
                        (StopRefresh c) (addr c))
                     (mkWorld
                        (mkServer
                           (<[k := mkCache (Workloads c) (LastFetch c) (ck cr)
                                     (StopRefresh c) (addr c)]> wc) ifr tm)
                        lvl up ck (S fc) (S cr) na
                        (EvUnlock cacheLock :: EvLock cacheLock
                           :: EvRUnlock cacheLock :: EvRLock cacheLock :: tr))))
        as [-> ->].
      simpl. split; [done|lia].
    + unfold timeNow. simpl.
      destruct (negb _ || _); simpl.
      * key_ok Hk. unfold fetchWorkloads. simpl. rewrite Hws.
        erewrite updateCache_present
          by (simpl; first [apply lookup_insert_eq | done]).
        eexists _, _. split; [reflexivity|]. simpl. split; [done|lia].
      * eexists _, _. split; [reflexivity|]. simpl. split; [done|lia].
  - rewrite startCacheRefresh_run by done. unfold startedWorld. simpl.
    rewrite Hc. unfold fetchWorkloads. simpl. rewrite Hws.
    erewrite updateCache_present
      by (simpl; first [apply lookup_insert_eq | done]).
    eexists _, _. split; [reflexivity|]. simpl. split; [done|lia].
Qed.

Lemma append_nil_r s : s +:+ EmptyString = s.
Proof. induction s as [|c s IH]; [done|]. by rewrite append_cons, IH. Qed.

Lemma TrimPrefix_slash s : TrimPrefix (String slash s) "/" = s.
Proof. unfold TrimPrefix. simpl. by rewrite ?bool_decide_eq_true_2. Qed.

Lemma SplitN_index idx index tail :
  Atoi idx = Some index →
  SplitN (idx +:+ tailOf tail) slash 3
  = idx :: match tail with
           | Some rest => SplitN rest slash 2
           | None => []
           end.
Proof.
  intros H. apply Atoi_no_slash in H.
  change (SplitN (idx +:+ tailOf tail) slash 3)
    with (match cut slash (idx +:+ tailOf tail) with
          | Some (a, b) => a :: SplitN b slash 2
          | None => [idx +:+ tailOf tail]
          end).
  destruct tail as [rest|]; unfold tailOf.
  - by rewrite cut_append.
  - by rewrite append_nil_r, H.
Qed.

Lemma index_path_not_special idx index tail :
  Atoi idx = Some index →
  String slash (idx +:+ tailOf tail) ≠ "/"
  ∧ String slash (idx +:+ tailOf tail) ≠ "/workloads"
  ∧ idx ≠ "tags".
Proof.
  intros H. repeat split.
  - intros [= E]. destruct idx; [done|]. by rewrite append_cons in E.
  - intros [= E]. pose proof (Atoi_no_slash _ _ H) as Hcut.
    destruct tail as [rest|]; unfold tailOf in E.
    + assert (Hc : cut slash (idx +:+ String slash rest) = Some (idx, rest))
        by (by apply cut_append).
      rewrite E in Hc. by vm_compute in Hc.
    + rewrite append_nil_r in E. subst idx. by vm_compute in H.
  - intros ->. by vm_compute in H.
Qed.



(** The index-routing example of the specification, evaluated: with
    running workloads on node-a, node-b and node-c in upstream order,
    [/1/foo] is forwarded to node-b with path [/foo] and the upstream's
    status, [/5/foo] and [/-1/foo] are answered 404, [/x/foo] 400, and the
    same request without a remainder is forwarded with path [/]. *)
Example index_routing_example :
  let net := mkNet None (Val sampleResponse) true None in
  let w := startWorld (upstreamOf (Some [wlA; wlStopped; wlB; wlOff; wlC]))
             tickingClock in
  let outcome (path : string) :=
    match ProxyHandler net (sampleRequest path) w with
    | Ok reply w' => Some (status reply, calls (trace w'))
    | Panic _ => None
    end in
  outcome "/1/foo"
  = Some (200, [EvTrack tenant "node-b" (-1); EvDo "POST" "https://node-b/foo";
                EvTrack tenant "node-b" 1; EvGo tenant 0])
  ∧ outcome "/2"
    = Some (200, [EvTrack tenant "node-c" (-1); EvDo "POST" "https://node-c/";
                  EvTrack tenant "node-c" 1; EvGo tenant 0])
  ∧ outcome "/5/foo" = Some (404, [EvGo tenant 0])
  ∧ outcome "/-1/foo" = Some (404, [EvGo tenant 0])
  ∧ outcome "/x/foo" = Some (400, [EvGo tenant 0]).
Proof. repeat split; vm_compute; reflexivity. Qed.

(** ** Lock discipline *)

Section Holds.
Context {A B : Type}.

Lemma holds_bind h h1 h2 p (m : M A) (f : A → M B) :
  holds h m h1 p → (∀ a, holds h1 (f a) h2 p) → holds h (m ≫= f) h2 p.
Proof.
  intros Hm Hf w Hw. unfold mbind, M_bind. specialize (Hm w Hw).
  destruct (m w) as [a w'|w']; [|done]. by apply Hf.
Qed.

Lemma holds_silent h (m : M A) : silent m → holds h m h h.
Proof.
  intros Hs w Hw. specialize (Hs w). destruct (m w); simpl in Hs;
    by rewrite Hs.
Qed.

Lemma holds_quiet h p (m : M A) : silent m → nopanic m → holds h m h p.
Proof.
  intros Hs Hn w Hw. specialize (Hs w). destruct (Hn w) as (a & w' & E).
  rewrite E in *. simpl in Hs. by rewrite Hs.
Qed.

Lemma holds_deferred h h1 h2 (d : M unit) (body : M A) :
  holds h body h1 h1 → holds h1 d h2 h2 → holds h (deferred d body) h2 h2.
Proof.
  intros Hb Hd w Hw. unfold deferred. specialize (Hb w Hw).
  destruct (body w) as [a w'|w']; specialize (Hd w' Hb);
    by destruct (d w').
Qed.
End Holds.

Lemma holds_ret {A} h p (a : A) : holds h (mret a) h p.
Proof. by intros w Hw. Qed.

Lemma holds_acquire l p e :
  e = EvLock l ∨ e = EvRLock l → holds None (emit e) (Some l) p.
Proof. intros [-> | ->] w Hw; simpl; by rewrite Hw. Qed.

Lemma holds_release l p e :
  e = EvUnlock l ∨ e = EvRUnlock l → holds (Some l) (emit e) None p.
Proof. intros [-> | ->] w Hw; simpl; rewrite Hw; by destruct l. Qed.

Lemma holds_call h p e :
  isLockEvent e = false → holds h (emit e) h p.
Proof. intros He w Hw. simpl. rewrite Hw. by destruct e. Qed.

Lemma silent_nopanic_prims :
  (silent getS ∧ nopanic getS)
  ∧ (∀ s, silent (putS s) ∧ nopanic (putS s))
  ∧ (silent getLogLevel ∧ nopanic getLogLevel)
  ∧ (silent timeNow ∧ nopanic timeNow)
  ∧ (silent freshAddr ∧ nopanic freshAddr)
  ∧ (∀ k, silent (fetchWorkloads k) ∧ nopanic (fetchWorkloads k))
  ∧ (∀ k c, silent (storeCache k c) ∧ nopanic (storeCache k c))
  ∧ (∀ k n v, silent (storeCount k n v) ∧ nopanic (storeCount k n v))
  ∧ (∀ k c, silent (deref k c) ∧ nopanic (deref k c)).
Proof.
  repeat split; intros;
    first [ intros w; reflexivity | intros w; eexists _, _; reflexivity ].
Qed.

Lemma silent_keyPrefix8 k : silent (keyPrefix8 k).
Proof. intros w. unfold keyPrefix8. by destruct (_ <? _)%nat. Qed.

Lemma silent_panic {A} : silent (@panic A).
Proof. by intros w. Qed.

Create HintDb holds.

Lemma holds_getS h p : holds h getS h p.
Proof. apply holds_quiet; apply silent_nopanic_prims. Qed.
Lemma holds_putS h p s : holds h (putS s) h p.
Proof. apply holds_quiet; apply silent_nopanic_prims. Qed.
Lemma holds_getLogLevel h p : holds h getLogLevel h p.
Proof. apply holds_quiet; apply silent_nopanic_prims. Qed.
Lemma holds_timeNow h p : holds h timeNow h p.
Proof. apply holds_quiet; apply silent_nopanic_prims. Qed.
Lemma holds_freshAddr h p : holds h freshAddr h p.
Proof. apply holds_quiet; apply silent_nopanic_prims. Qed.
Lemma holds_fetchWorkloads h p k : holds h (fetchWorkloads k) h p.
Proof. apply holds_quiet; apply silent_nopanic_prims. Qed.
Lemma holds_storeCache h p k c : holds h (storeCache k c) h p.
Proof. apply holds_quiet; apply silent_nopanic_prims. Qed.
Lemma holds_storeCount h p k n v : holds h (storeCount k n v) h p.
Proof. apply holds_quiet; apply silent_nopanic_prims. Qed.
Lemma holds_deref h p k c : holds h (deref k c) h p.
Proof. apply holds_quiet; apply silent_nopanic_prims. Qed.
Lemma holds_keyPrefix8 h k : holds h (keyPrefix8 k) h h.
Proof. apply holds_silent, silent_keyPrefix8. Qed.
Lemma holds_panic {A} h : holds h (@panic A) h h.
Proof. apply holds_silent, silent_panic. Qed.
Lemma holds_Lock l p : holds None (Lock l) (Some l) p.
Proof. apply holds_acquire. by left. Qed.
Lemma holds_RLock l p : holds None (RLock l) (Some l) p.
Proof. apply holds_acquire. by right. Qed.
Lemma holds_Unlock l p : holds (Some l) (Unlock l) None p.
Proof. apply holds_release. by left. Qed.
Lemma holds_RUnlock l p : holds (Some l) (RUnlock l) None p.
Proof. apply holds_release. by right. Qed.
Lemma holds_EvGo h p k a : holds h (emit (EvGo k a)) h p.
Proof. by apply holds_call. Qed.
Lemma holds_EvTrack h p k n d : holds h (emit (EvTrack k n d)) h p.
Proof. by apply holds_call. Qed.
Lemma holds_EvDo h p m u : holds h (emit (EvDo m u)) h p.
Proof. by apply holds_call. Qed.

#[local] Hint Resolve holds_ret holds_getS holds_putS holds_getLogLevel
  holds_timeNow holds_freshAddr holds_fetchWorkloads holds_storeCache
  holds_storeCount holds_deref holds_keyPrefix8 holds_panic holds_Lock
  holds_RLock holds_Unlock holds_RUnlock holds_EvGo holds_EvTrack holds_EvDo
  : holds.

(** Steps through a monadic body: binds and deferred calls by their rules,
    branches by case analysis, primitive operations and calls by the hints
    of [holds]. *)
Ltac holds_go :=
  lazymatch goal with
  | |- holds _ (mbind _ _) _ _ =>
      eapply holds_bind; [holds_go | intros; holds_go]
  | |- holds _ (deferred _ _) _ _ =>
      eapply holds_deferred; [holds_go | holds_go]
  | |- holds _ (if ?c then _ else _) _ _ => destruct c; holds_go
  | |- holds _ (match ?c with _ => _ end) _ _ => destruct c; holds_go
  | |- _ => solve [eauto with holds nocore]
  end.

Lemma TrackRequest_solo k n d : holds None (TrackRequest k n d) None None.
Proof. unfold TrackRequest. holds_go. Qed.

Lemma DumpInFlightRequests_solo : holds None DumpInFlightRequests None None.
Proof. unfold DumpInFlightRequests. holds_go. Qed.

Lemma updateLastAccess_solo k : holds None (updateLastAccess k) None None.
Proof. unfold updateLastAccess. holds_go. Qed.

Lemma updateCache_solo k ws : holds None (updateCache k ws) None None.
Proof. unfold updateCache. holds_go. Qed.

Lemma startCacheRefresh_solo k : holds None (startCacheRefresh k) None None.
Proof. unfold startCacheRefresh. holds_go. Qed.

#[local] Hint Resolve TrackRequest_solo DumpInFlightRequests_solo
  updateLastAccess_solo updateCache_solo startCacheRefresh_solo : holds.

Lemma dumpIfDebug_solo : holds None dumpIfDebug None None.
Proof. unfold dumpIfDebug. holds_go. Qed.

Lemma forceRefreshWorkloads_solo k :
  holds None (forceRefreshWorkloads k) None None.
Proof. unfold forceRefreshWorkloads. holds_go. Qed.

#[local] Hint Resolve dumpIfDebug_solo forceRefreshWorkloads_solo : holds.

Lemma refreshIteration_solo k : holds None (refreshIteration k) None None.
Proof. unfold refreshIteration. holds_go. Qed.

Lemma getWorkloads_solo k : holds None (getWorkloads k) None None.
Proof. unfold getWorkloads. holds_go. Qed.

Lemma HandleProxyRequest_solo net r node k :
  holds None (HandleProxyRequest net r node k) None None.
Proof. unfold HandleProxyRequest. holds_go. Qed.

Lemma closeStopRefresh_held k :
  holds (Some cacheLock) (closeStopRefresh k) (Some cacheLock) (Some cacheLock).
Proof. unfold closeStopRefresh. holds_go. Qed.

Lemma Cleanup_solo order : holds None (Cleanup order) None None.
Proof.
  unfold Cleanup. eapply holds_bind; [apply holds_Lock|]. intros _.
  eapply holds_deferred; [|apply holds_Unlock].
  induction order as [|k order IH]; simpl; [apply holds_ret|].
  eapply holds_bind; [apply closeStopRefresh_held|]. intros _. exact IH.
Qed.

Lemma soloRun_orderRun t h :
  soloRun t = Some h →
  orderRun t = Some (match h with Some requestLock => 1%nat | _ => 0%nat end).
Proof.
  revert h. induction t as [|e t IH]; intros h; simpl.
  - by intros [= <-].
  - destruct (soloRun t) as [h0|]; [|done]. rewrite (IH h0 eq_refl).
    destruct e as [l|l|l|l| | |]; simpl;
      try (intros [= <-]; by destruct h0 as [[]|]).
    all: destruct h0 as [[]|]; destruct l; simpl; try done;
      by intros [= <-].
Qed.

Lemma orderRun_sticky t t' : orderRun t' = None → orderRun (t ++ t') = None.
Proof.
  intros H. induction t as [|e t IH]; simpl; [done|]. by rewrite IH.
Qed.

Lemma GetLeastBusyNode_nests k tag w :
  (8 ≤ String.length k)%nat →
  registryHasRunning (server w) k = true
  ∨ (∃ ws, upstream w (fetchCalls w) k = FetchOk ws) →
  soloRun (trace w) = Some None →
  ∃ t w1,
    trace (after (GetLeastBusyNode k tag) w)
    = t ++ EvRLock cacheLock :: EvRLock requestLock :: trace w1
    ∧ soloRun (trace w1) = Some None.
Proof.
  intros Hk Hrefresh Hw.
  assert (Hphase2 : ∀ w1 : World,
    ∃ t, trace (world_of (
          (RLock requestLock;;
           deferred (RUnlock requestLock) (
             RLock cacheLock;;
             deferred (RUnlock cacheLock) (
               s ← getS;
               match candidateNodes s k tag with
               | Err e => mret (Err e)
               | Val [] => mret (Err "no active nodes found")
               | Val nodes =>
                   (if inFlightRequests s !! k is None then
                      RUnlock requestLock;;
                      Lock requestLock;;
                      putS (setInFlightRequests
                              (<[k := ∅]> (inFlightRequests s)) s);;
                      Unlock requestLock;;
                      RLock requestLock
                    else mret tt);;
                   s ← getS;
                   mret (Val (selectLoop s k nodes).1)
               end))) w1))
         = t ++ EvRLock cacheLock :: EvRLock requestLock :: trace w1).
  { intros w1. munfold. simpl.
    destruct (candidateNodes (server w1) k tag) as [[|n0 nodes]|e]; simpl;
      try (by exists [EvRUnlock requestLock; EvRUnlock cacheLock]).
    destruct (inFlightRequests (server w1) !! k); simpl.
    - by exists [EvRUnlock requestLock; EvRUnlock cacheLock].
    - by exists [EvRUnlock requestLock; EvRUnlock cacheLock;
                 EvRLock requestLock; EvUnlock requestLock;
                 EvLock requestLock; EvRUnlock requestLock]. }
  unfold after, GetLeastBusyNode.
  match type of Hphase2 with
  | ∀ w1, ∃ t, trace (world_of (?p w1)) = _ => set (phase2 := p) in *
  end.
  unfold mbind, M_bind, mret, M_ret, getS, RLock, RUnlock, emit. simpl.
  unfold registryHasRunning in Hrefresh.
  destruct (match workloadCache (server w) !! k with
            | Some cache => existsb isRunning (elems (Workloads cache))
            | None => false
            end) eqn:Hrun.
  - match goal with
    | |- ∃ t w1, trace (world_of (phase2 ?w0)) = _ ∧ _ =>
        destruct (Hphase2 w0) as [t Ht]; exists t, w0
    end.
    split; [exact Ht|]. simpl. by rewrite Hw.
  - destruct Hrefresh as [|[ws Hws]]; [done|].
    key_ok Hk. unfold mret, M_ret. simpl.
    rewrite forceRefreshWorkloads_run by done.
    unfold forcedResult. simpl. rewrite Hws.
    match goal with
    | |- ∃ t w1, trace (world_of (phase2 ?w0)) = _ ∧ _ =>
        destruct (Hphase2 w0) as [t Ht]; exists t, w0
    end.
    split; [exact Ht|].
    match goal with
    | |- soloRun (trace (forcedWorld k ?w0)) = _ =>
        pose proof (forceRefreshWorkloads_solo k w0) as Hsolo;
        rewrite forceRefreshWorkloads_run in Hsolo by done
    end.
    apply Hsolo. simpl. by rewrite Hw.
Qed.




(** * Further properties of the handlers, the registry and the counters *)

(** ** The request handler: credentials that are too short *)

(** X1.  A request that is not the health check and carries a credential
    of 1 to 7 bytes makes [ProxyHandler] panic at its [apiKey[:8]], after
    [updateLastAccess] and before any workload is fetched or any counter is
    touched: the world at the panic is the one [updateLastAccess] leaves. *)
Theorem ProxyHandler_short_key_panics (net : Net) (r : Request) (w : World) :
  ¬ (Path r = "/" ∧ Method r = "GET") →
  apiKeyOf r ≠ EmptyString →
  (String.length (apiKeyOf r) < 8)%nat →
  ProxyHandler net r w = Panic (touchedWorld (apiKeyOf r) w)
  ∧ fetchCalls (touchedWorld (apiKeyOf r) w) = fetchCalls w
  ∧ inFlightRequests (server (touchedWorld (apiKeyOf r) w))
    = inFlightRequests (server w).
Proof.
  intros Hnot Hkey Hlen. split.
  - unfold ProxyHandler.
    destruct (bool_decide (Path r = "/") && bool_decide (Method r = "GET"))
      eqn:E.
    { apply andb_true_iff in E as [?%bool_decide_eq_true ?%bool_decide_eq_true].
      by destruct Hnot. }
    rewrite (bool_decide_eq_false_2 _ Hkey).
    unfold mbind at 1 2, M_bind at 1 2. rewrite updateLastAccess_run.
    unfold keyPrefix8. apply Nat.ltb_lt in Hlen. by rewrite Hlen.
  - unfold touchedWorld.
    by destruct (workloadCache (server w) !! apiKeyOf r).
Qed.

Lemma ProxyHandler_short_key_panics_witness :
  let r := mkRequest "POST" "/0/x" "" {[ "X-C3-API-KEY" := ["short"] ]} in
  let w := startWorld upstreamDown tickingClock in
  ∃ w', ProxyHandler (mkNet None (Val sampleResponse) true None) r w = Panic w'
        ∧ fetchCalls w' = 0%nat.
Proof.
  intros r w.
  destruct (ProxyHandler_short_key_panics
              (mkNet None (Val sampleResponse) true None) r w)
    as (Hp & Hf & _).
  - by intros [? _].
  - by vm_compute.
  - vm_compute. lia.
  - eexists. split; [exact Hp | exact Hf].
Defined.

(** ** [getWorkloads]: cache hits and refreshes *)

(** X2.  When the tenant's registry entry lists a running workload and was
    fetched at most 60 s before the second clock reading of the call,
    [getWorkloads] returns the cached list without calling the upstream; it
    only renews the entry's [LastAccess]. *)
Theorem getWorkloads_cache_hit (apiKey : string) (w : World)
  (c : WorkloadCache) :
  workloadCache (server w) !! apiKey = Some c →
  existsb isRunning (elems (Workloads c)) = true →
  clock w (S (clockReads w)) - LastFetch c ≤ 60 * second →
  ∃ w', getWorkloads apiKey w = Ok (Val (Workloads c)) w'
        ∧ fetchCalls w' = fetchCalls w
        ∧ workloadCache (server w')
          = <[apiKey := setLastAccess (clock w (clockReads w)) c]>
              (workloadCache (server w))
        ∧ tagMappings (server w') = tagMappings (server w)
        ∧ inFlightRequests (server w') = inFlightRequests (server w).
Proof.
  destruct w as [[wc ifr tm] lvl up ck fc cr na tr]. simpl.
  intros Hc Hrun Hfresh.
  assert (Hne : elems (Workloads c) ≠ [])
    by (intros E; rewrite E in Hrun; done).
  unfold getWorkloads. munfold. simpl.
  rewrite updateLastAccess_run, Hc. unfold touchedWorld, setLastAccess.
  simpl. rewrite Hc. simpl. rewrite ?deref_run. dsimp.
  rewrite (bool_decide_eq_false_2 _ Hne). unfold timeNow, sinceExceeds. dsimp.
  rewrite Hrun. replace (60 * second <? ck (S cr) - LastFetch c) with false
    by lia.
  dsimp. eexists. split; [reflexivity|]. simpl. done.
Qed.

Lemma getWorkloads_cache_hit_witness :
  let w := after (updateCache tenant (Some [wlStopped; wlA]))
             (worldWithRegistry upstreamDown) in
  ∃ w', getWorkloads tenant w = Ok (Val (Some [wlStopped; wlA])) w'
        ∧ fetchCalls w' = fetchCalls w.
Proof.
  intros w.
  destruct (getWorkloads_cache_hit tenant w
              (mkCache (Some [wlStopped; wlA]) second 0 (Some false) 0))
    as (w' & Hrun & Hf & _).
  - by vm_compute.
  - reflexivity.
  - by vm_compute.
  - exists w'. split; [exact Hrun | exact Hf].
Defined.

(** X3.  When [getWorkloads] has to refresh (no registry entry, no running
    workload in the cached list, or a list fetched more than 60 s ago) and
    the upstream answers with a list, that list is returned after exactly
    one upstream call, and the tenant's registry entry then holds it, with
    a tag index listing for each tag the nodes of its running workloads. *)
Theorem getWorkloads_refreshes (apiKey : string) (w : World)
  (workloads : slice Workload) :
  (8 ≤ String.length apiKey)%nat →
  upstream w (fetchCalls w) apiKey = FetchOk workloads →
  match workloadCache (server w) !! apiKey with
  | None => True
  | Some c =>
      existsb isRunning (elems (Workloads c)) = false
      ∨ 60 * second < clock w (S (clockReads w)) - LastFetch c
  end →
  ∃ w' c' tagMap,
    getWorkloads apiKey w = Ok (Val workloads) w'
    ∧ fetchCalls w' = S (fetchCalls w)
    ∧ workloadCache (server w') !! apiKey = Some c'
    ∧ Workloads c' = workloads
    ∧ tagMappings (server w') !! apiKey = Some tagMap
    ∧ (∀ tag, bucket tagMap tag = nodesTagged (elems workloads) tag)
    ∧ inFlightRequests (server w') = inFlightRequests (server w).
Proof.
  destruct w as [[wc ifr tm] lvl up ck fc cr na tr]. simpl.
  intros Hk Hup Hcase.
  assert (Htags : ∀ tag, bucket (scanWorkloads (elems workloads)).2 tag
                         = nodesTagged (elems workloads) tag).
  { intros tag. destruct (scanWorkloads_spec (elems workloads)) as (_ & _ & H).
    unfold bucket. rewrite H. by destruct (nodesTagged _ _). }
  unfold getWorkloads. munfold. simpl.
  rewrite updateLastAccess_run. unfold touchedWorld, setLastAccess. simpl.
  destruct (wc !! apiKey) as [c|] eqn:Hc; simpl.
  - rewrite ?deref_run. dsimp.
    destruct (bool_decide (elems (Workloads c) = [])); simpl.
    + unfold fetchWorkloads. simpl. rewrite Hup.
      erewrite updateCache_present
        by (simpl; first [apply lookup_insert_eq | done]).
      rewrite startCacheRefresh_run by done.
      unfold startedWorld, updatedWorld, updatedCache. simpl.
      rewrite !lookup_insert_eq. simpl.
      eexists _, _, _. split; [reflexivity|]. simpl.
      rewrite !lookup_insert_eq. done.
    + unfold timeNow, sinceExceeds. dsimp.
      assert (negb (existsb isRunning (elems (Workloads c)))
              || (60 * second <? ck (S cr) - LastFetch c) = true) as ->.
      { destruct Hcase as [-> | H]; [done|].
        replace (60 * second <? _) with true by lia. by rewrite orb_true_r. }
      key_ok Hk. unfold fetchWorkloads. simpl. rewrite Hup.
      erewrite updateCache_present
        by (simpl; first [apply lookup_insert_eq | done]).
      unfold updatedWorld, updatedCache. simpl.
      eexists _, _, _. split; [reflexivity|]. simpl.
      rewrite !lookup_insert_eq. done.
  - rewrite startCacheRefresh_run by done. unfold startedWorld. simpl.
    rewrite Hc. unfold fetchWorkloads. simpl. rewrite Hup.
    erewrite updateCache_present
      by (simpl; first [apply lookup_insert_eq | done]).
    unfold updatedWorld, updatedCache. simpl.
    eexists _, _, _. split; [reflexivity|]. simpl.
    rewrite !lookup_insert_eq. done.
Qed.

Lemma getWorkloads_refreshes_witness :
  let w := startWorld (upstreamOf (Some [wlA; wlOff; wlB])) tickingClock in
  ∃ w' tagMap,
    getWorkloads tenant w = Ok (Val (Some [wlA; wlOff; wlB])) w'
    ∧ tagMappings (server w') !! tenant = Some tagMap
    ∧ bucket tagMap "t" = ["node-a"; "node-b"].
Proof.
  intros w.
  destruct (getWorkloads_refreshes tenant w (Some [wlA; wlOff; wlB]))
    as (w' & c' & tagMap & Hrun & _ & _ & _ & Htm & Htags & _).
  - vm_compute. lia.
  - reflexivity.
  - by vm_compute.
  - exists w', tagMap. split; [exact Hrun|]. split; [exact Htm|].
    by rewrite Htags.
Defined.

(** ** The refresh task's life cycle *)

(** X4.  [startCacheRefresh] starts at most one task per registry entry.
    For a tenant without an entry it creates one (nil list, zero fetch
    time, an open stop channel, a fresh pointer) and starts exactly one
    task for it; for an entry that already has a stop channel it starts
    none and only renews [LastAccess].  So two calls in a row start one
    task. *)
Theorem startCacheRefresh_single_task (apiKey : string) (w : World) :
  (8 ≤ String.length apiKey)%nat →
  (workloadCache (server w) !! apiKey = None →
   ∃ w', startCacheRefresh apiKey w = Ok tt w'
         ∧ workloadCache (server w') !! apiKey
           = Some (mkCache None zeroTime (clock w (clockReads w)) (Some false)
                           (nextAddr w))
         ∧ nextAddr w' = S (nextAddr w)
         ∧ calls (trace w') = EvGo apiKey (nextAddr w) :: calls (trace w)
         ∧ ∃ w'', startCacheRefresh apiKey w' = Ok tt w''
                  ∧ calls (trace w'') = calls (trace w')
                  ∧ nextAddr w'' = nextAddr w')
  ∧ (∀ c, workloadCache (server w) !! apiKey = Some c →
          is_Some (StopRefresh c) →
          ∃ w', startCacheRefresh apiKey w = Ok tt w'
                ∧ workloadCache (server w') !! apiKey
                  = Some (setLastAccess (clock w (clockReads w)) c)
                ∧ nextAddr w' = nextAddr w
                ∧ calls (trace w') = calls (trace w)).
Proof.
  intros Hk.
  assert (Hrunning : ∀ w0 c, workloadCache (server w0) !! apiKey = Some c →
            is_Some (StopRefresh c) →
            ∃ w', startCacheRefresh apiKey w0 = Ok tt w'
                  ∧ workloadCache (server w') !! apiKey
                    = Some (setLastAccess (clock w0 (clockReads w0)) c)
                  ∧ nextAddr w' = nextAddr w0
                  ∧ calls (trace w') = calls (trace w0)).
  { intros w0 c Hc [stop Hstop]. rewrite startCacheRefresh_run by done.
    eexists. split; [reflexivity|]. unfold startedWorld. rewrite Hc. simpl.
    rewrite lookup_insert_eq, Hstop. destruct c; simpl in *. by subst. }
  split; [|apply Hrunning].
  intros Hc. rewrite startCacheRefresh_run by done.
  eexists. split; [reflexivity|]. unfold startedWorld at 1 2 3. rewrite Hc.
  simpl. rewrite lookup_insert_eq. repeat split.
  edestruct (Hrunning (startedWorld apiKey w)) as (w'' & Hrun & _ & Ha & Ht).
  { unfold startedWorld. rewrite Hc. simpl. apply lookup_insert_eq. }
  { simpl. eauto. }
  exists w''. done.
Qed.

Lemma startCacheRefresh_single_task_witness :
  let w := startWorld upstreamDown tickingClock in
  ∃ w' w'',
    startCacheRefresh tenant w = Ok tt w'
    ∧ startCacheRefresh tenant w' = Ok tt w''
    ∧ calls (trace w'') = [EvGo tenant 0].
Proof.
  intros w.
  destruct (startCacheRefresh_single_task tenant w) as [Hnew _];
    [vm_compute; lia|].
  destruct (Hnew eq_refl) as (w' & Hrun & _ & _ & Hcalls & w'' & Hrun' & Hc' & _).
  exists w', w''. split; [exact Hrun|]. split; [exact Hrun'|].
  by rewrite Hc', Hcalls.
Defined.

(** X5.  A request keeps its tenant's registry alive: after
    [updateLastAccess], a pass of the refresh task whose clock reading is
    at most 180 s later does not evict, whatever the idle time was before,
    and goes on to its fetch. *)
Theorem updateLastAccess_defers_eviction (apiKey : string) (w : World)
  (c : WorkloadCache) :
  (8 ≤ String.length apiKey)%nat →
  workloadCache (server w) !! apiKey = Some c →
  clock w (S (clockReads w)) - clock w (clockReads w) ≤ 180 * second →
  ∃ w1 w' c',
    updateLastAccess apiKey w = Ok tt w1
    ∧ refreshIteration apiKey w1 = Ok Select w'
    ∧ workloadCache (server w') !! apiKey = Some c'
    ∧ fetchCalls w' = S (fetchCalls w).
Proof.
  intros Hk Hc Hsoon.
  assert (Hc1 : workloadCache (server (touchedWorld apiKey w)) !! apiKey
                = Some (setLastAccess (clock w (clockReads w)) c))
    by (by apply touchedWorld_cache).
  pose proof (refreshIteration_fetches apiKey (touchedWorld apiKey w) _ Hk Hc1)
    as Hrun.
  cbv zeta in Hrun.
  assert (Ht : touchedWorld apiKey w
               = mkWorld
                   (mkServer
                      (<[apiKey := setLastAccess (clock w (clockReads w)) c]>
                         (workloadCache (server w)))
                      (inFlightRequests (server w)) (tagMappings (server w)))
                   (logLevel w) (upstream w) (clock w) (fetchCalls w)
                   (S (clockReads w)) (nextAddr w)
                   (EvUnlock cacheLock :: EvLock cacheLock :: trace w))
    by (unfold touchedWorld; by rewrite Hc).
  rewrite Ht in Hrun. simpl in Hrun.
  specialize (Hrun (or_introl Hsoon)).
  exists (touchedWorld apiKey w).
  destruct (upstream w (fetchCalls w) apiKey).
  - eexists _, _. split; [apply updateLastAccess_run|].
    rewrite Ht. split; [exact Hrun|]. simpl. by rewrite lookup_insert_eq.
  - eexists _, _. split; [apply updateLastAccess_run|].
    rewrite Ht. split; [exact Hrun|]. simpl. by rewrite lookup_insert_eq.
Qed.

Lemma updateLastAccess_defers_eviction_witness :
  let w := atTime (1000 * second) (worldWithRegistry upstreamDown) in
  (∃ w', refreshIteration tenant w = Ok Return w')
  ∧ ∃ w1 w', updateLastAccess tenant w = Ok tt w1
             ∧ refreshIteration tenant w1 = Ok Select w'.
Proof.
  intros w. split.
  - eexists. vm_compute. reflexivity.
  - destruct (updateLastAccess_defers_eviction tenant w
                (mkCache None zeroTime 0 (Some false) 0))
      as (w1 & w' & c' & H1 & H2 & _).
    + vm_compute. lia.
    + by vm_compute.
    + by vm_compute.
    + by exists w1, w'.
Defined.

(** X6.  After a pass of the refresh task has evicted a tenant, the
    tenant's next [getWorkloads] starts over: it creates a registry entry
    under a fresh pointer, starts a new task for it, fetches, and returns
    and stores the fetched list. *)
Theorem getWorkloads_after_eviction (apiKey : string) (w : World)
  (c : WorkloadCache) (workloads : slice Workload) :
  (8 ≤ String.length apiKey)%nat →
  workloadCache (server w) !! apiKey = Some c →
  180 * second < clock w (clockReads w) - LastAccess c →
  (∀ node, countOf (server w) apiKey node ≤ 0) →
  upstream w (fetchCalls w) apiKey = FetchOk workloads →
  ∃ w1 w2 c2,
    refreshIteration apiKey w = Ok Return w1
    ∧ workloadCache (server w1) !! apiKey = None
    ∧ getWorkloads apiKey w1 = Ok (Val workloads) w2
    ∧ workloadCache (server w2) !! apiKey = Some c2
    ∧ addr c2 = nextAddr w
    ∧ Workloads c2 = workloads
    ∧ StopRefresh c2 = Some false
    ∧ calls (trace w2) = EvGo apiKey (nextAddr w) :: calls (trace w).
Proof.
  intros Hk Hc Hidle Hnone Hup. apply hasActiveRequests_false in Hnone.
  rewrite (refreshIteration_evicts _ _ _ Hk Hc Hidle Hnone).
  eexists. do 2 eexists. split; [reflexivity|]. simpl.
  split; [by rewrite lookup_delete_eq|].
  unfold getWorkloads. munfold. simpl. rewrite updateLastAccess_run.
  unfold touchedWorld. simpl. rewrite !lookup_delete_eq. simpl.
  rewrite startCacheRefresh_run by done. unfold startedWorld. simpl.
  rewrite lookup_delete_eq. unfold fetchWorkloads. simpl. rewrite Hup.
  erewrite updateCache_present
    by (simpl; first [apply lookup_insert_eq | done]).
  split; [reflexivity|]. unfold updatedWorld, updatedCache. simpl.
  rewrite !lookup_insert_eq. done.
Qed.

Lemma getWorkloads_after_eviction_witness :
  let w := atTime (181 * second)
             (worldWithRegistry (upstreamOf (Some [wlA]))) in
  ∃ w1 w2 c2,
    refreshIteration tenant w = Ok Return w1
    ∧ getWorkloads tenant w1 = Ok (Val (Some [wlA])) w2
    ∧ workloadCache (server w2) !! tenant = Some c2
    ∧ addr c2 = 1%nat.
Proof.
  intros w.
  destruct (getWorkloads_after_eviction tenant w
              (mkCache None zeroTime 0 (Some false) 0) (Some [wlA]))
    as (w1 & w2 & c2 & H1 & _ & H2 & H3 & H4 & _).
  - vm_compute. lia.
  - by vm_compute.
  - by vm_compute.
  - intros node. by vm_compute.
  - reflexivity.
  - by exists w1, w2, c2.
Defined.

(** ** Selection: when the refresh check does not help *)

(** X7.  When the registry reports no running workload for the tenant and
    the forced refresh fails, [GetLeastBusyNode] returns the wrapped fetch
    error after one upstream call, with every table as it was. *)
Theorem GetLeastBusyNode_refresh_failure (apiKey tag : string) (w : World)
  (e : string) :
  (8 ≤ String.length apiKey)%nat →
  registryHasRunning (server w) apiKey = false →
  upstream w (fetchCalls w) apiKey = FetchErr e →
  ∃ w', GetLeastBusyNode apiKey tag w
        = Ok (Err ("failed to refresh workloads: failed to fetch workloads: "
                   +:+ e)) w'
        ∧ server w' = server w
        ∧ fetchCalls w' = S (fetchCalls w).
Proof.
  intros Hk Hrun Hup. unfold GetLeastBusyNode.
  unfold mbind at 1 2 3 4, M_bind at 1 2 3 4. unfold RLock, RUnlock, emit, getS.
  cbn [server]. unfold registryHasRunning in Hrun. rewrite Hrun.
  unfold mbind at 1 2 3, M_bind at 1 2 3. key_ok Hk. unfold mret at 1, M_ret at 1.
  rewrite forceRefreshWorkloads_run by done.
  unfold forcedResult, forcedWorld. cbn [upstream fetchCalls]. rewrite Hup.
  unfold mret, M_ret. eexists. split; [reflexivity|]. done.
Qed.

Lemma GetLeastBusyNode_refresh_failure_witness :
  let w := worldWithRegistry upstreamDown in
  ∃ w', GetLeastBusyNode tenant "t" w
        = Ok (Err "failed to refresh workloads: failed to fetch workloads: connection refused") w'
        ∧ server w' = server w.
Proof.
  intros w.
  destruct (GetLeastBusyNode_refresh_failure tenant "t" w "connection refused")
    as (w' & Hrun & Hs & _).
  - vm_compute. lia.
  - by vm_compute.
  - reflexivity.
  - by exists w'.
Defined.

(** X8.  For a tenant without a registry entry, [forceRefreshWorkloads]
    returns the list the upstream reports but stores none of it:
    [updateCache] returns at its guard, and the entry created afterwards has
    a nil list and no tag index.  So [GetLeastBusyNode] called for such a
    tenant returns an error for every tag, even when the upstream reports
    running workloads. *)
Theorem GetLeastBusyNode_without_registry (apiKey tag : string) (w : World)
  (workloads : slice Workload) :
  (8 ≤ String.length apiKey)%nat →
  workloadCache (server w) !! apiKey = None →
  tagMappings (server w) !! apiKey = None →
  upstream w (fetchCalls w) apiKey = FetchOk workloads →
  (∃ w1, forceRefreshWorkloads apiKey w = Ok (Val workloads) w1
         ∧ workloadCache (server w1) !! apiKey
           = Some (mkCache None zeroTime (clock w (clockReads w)) (Some false)
                           (nextAddr w))
         ∧ tagMappings (server w1) !! apiKey = None)
  ∧ ∃ w', GetLeastBusyNode apiKey tag w
          = Ok (Err (if bool_decide (tag = "all")
                     then "no workloads found for API key"
                     else "no nodes found for API key")) w'.
Proof.
  intros Hk Hc Htm Hup. split.
  - rewrite forceRefreshWorkloads_run by done.
    unfold forcedResult, forcedWorld. rewrite Hup, Hc.
    eexists. split; [reflexivity|]. unfold startedWorld. simpl. rewrite Hc.
    simpl. by rewrite lookup_insert_eq.
  - destruct (GetLeastBusyNode_run apiKey tag w) as (w' & Hrun & _).
    { right. split; [done|]. eauto. }
    exists w'. rewrite Hrun. f_equal.
    unfold selectionWorld, registryHasRunning. rewrite Hc.
    unfold after. rewrite forceRefreshWorkloads_run by done.
    unfold forcedWorld. rewrite Hup, Hc. unfold startedWorld. simpl.
    rewrite Hc. unfold selectionResult, candidateNodes. simpl.
    rewrite lookup_insert_eq, Htm. simpl.
    by destruct (bool_decide (tag = "all")).
Qed.

Lemma GetLeastBusyNode_without_registry_witness :
  let w := startWorld (upstreamOf (Some [wlA; wlB])) tickingClock in
  (∃ w', GetLeastBusyNode tenant "t" w
         = Ok (Err "no nodes found for API key") w')
  ∧ (∃ w', GetLeastBusyNode tenant "all" w
           = Ok (Err "no workloads found for API key") w').
Proof.
  intros w.
  assert (Hk : (8 ≤ String.length tenant)%nat) by (vm_compute; lia).
  split.
  - destruct (GetLeastBusyNode_without_registry tenant "t" w (Some [wlA; wlB])
                Hk eq_refl eq_refl eq_refl) as [_ H]. exact H.
  - destruct (GetLeastBusyNode_without_registry tenant "all" w
                (Some [wlA; wlB]) Hk eq_refl eq_refl eq_refl) as [_ H].
    exact H.
Defined.

(** ** Relaying the response body *)

Lemma append_assoc_s (a b c : string) : (a +:+ b) +:+ c = a +:+ (b +:+ c).
Proof.
  induction a as [|x a IH]; [done|]. by rewrite !append_cons, IH.
Qed.

Lemma copyLoop_spec budget last reads : ∀ writes out,
  copyLoop budget reads last writes out
  = out +:+ joined (match budget with
                    | None => filter (λ s, s ≠ EmptyString) (reads ++ [last])
                    | Some k =>
                        take (k - writes)
                          (filter (λ s, s ≠ EmptyString) (reads ++ [last]))
                    end).
Proof.
  induction reads as [|chunk reads IH]; intros writes out.
  - cbn [copyLoop app]. rewrite filter_cons, filter_nil.
    destruct (decide (last ≠ EmptyString)) as [Hne|He].
    + rewrite bool_decide_eq_false_2 by done.
      destruct budget as [k|]; cbn [writeOk joined foldr].
      * destruct (writes <? k)%nat eqn:E.
        -- apply Nat.ltb_lt in E. destruct (k - writes)%nat eqn:Ek; [lia|].
           cbn [take joined foldr]. rewrite take_nil. cbn [foldr].
           by rewrite append_nil_r.
        -- apply Nat.ltb_ge in E. replace (k - writes)%nat with 0%nat by lia.
           cbn [take joined foldr]. by rewrite append_nil_r.
      * by rewrite append_nil_r.
    + rewrite bool_decide_eq_true_2 by (by destruct (decide (last = ""))).
      destruct budget; rewrite ?take_nil; cbn [joined foldr];
        by rewrite append_nil_r.
  - cbn [copyLoop]. change ((chunk :: reads) ++ [last])
      with (chunk :: (reads ++ [last])). rewrite filter_cons.
    destruct (decide (chunk ≠ EmptyString)) as [Hne|He].
    + rewrite bool_decide_eq_false_2 by done.
      destruct budget as [k|]; cbn [writeOk].
      * destruct (writes <? k)%nat eqn:E.
        -- apply Nat.ltb_lt in E. rewrite IH.
           replace (k - writes)%nat with (S (k - S writes)) by lia.
           cbn [take joined foldr]. by rewrite append_assoc_s.
        -- apply Nat.ltb_ge in E. replace (k - writes)%nat with 0%nat by lia.
           cbn [take joined foldr]. by rewrite append_nil_r.
      * rewrite IH. cbn [joined foldr]. by rewrite append_assoc_s.
    + rewrite bool_decide_eq_true_2 by (by destruct (decide (chunk = ""))).
      apply IH.
Qed.

(** X9.  The body [HandleProxyRequest] relays is the concatenation of the
    upstream reads that carry bytes, up to the first write the caller
    refuses: all of them when no write fails, the first [k] when the caller
    accepts [k] writes.  This holds for a flushing and a non-flushing
    caller alike and whether the upstream body ends with [io.EOF] or with a
    read error; in particular bytes returned together with the final error
    are delivered. *)
Theorem relay_delivers (net : Net) (resp : Response) :
  relay net resp
  = joined (accepted (writeBudget net) (writesOf (Body resp)))
  ∧ (writeBudget net = None →
     relay net resp = joined (writesOf (Body resp)))
  ∧ ∃ lost, joined (writesOf (Body resp)) = relay net resp +:+ joined lost.
Proof.
  assert (H : relay net resp
              = joined (accepted (writeBudget net) (writesOf (Body resp)))).
  { unfold relay, ioCopy.
    assert (∀ b, copyLoop (writeBudget net) (chunks b) (lastChunk b) 0 ""
                 = joined (accepted (writeBudget net) (writesOf b))) as Hc.
    { intros b. rewrite copyLoop_spec, append_nil. unfold accepted, writesOf.
      destruct (writeBudget net); [|done]. by rewrite Nat.sub_0_r. }
    destruct (flusher net); apply Hc. }
  split; [exact H|]. split.
  - intros Hb. rewrite H, Hb. done.
  - rewrite H. unfold accepted.
    assert (Hj : ∀ l1 l2, joined (l1 ++ l2) = joined l1 +:+ joined l2).
    { induction l1 as [|x l1 IH]; intros l2; [done|].
      cbn [app joined foldr]. fold (joined (l1 ++ l2)). fold (joined l1).
      by rewrite IH, append_assoc_s. }
    destruct (writeBudget net) as [k|].
    + exists (drop k (writesOf (Body resp))).
      by rewrite <- Hj, take_drop.
    + exists []. by rewrite <- Hj, app_nil_r.
Qed.

Lemma relay_delivers_witness :
  relay (mkNet None (Val sampleResponse) true None) sampleResponse
  = "hello world"
  ∧ relay (mkNet None (Val sampleResponse) false (Some 2%nat))
      (mkResponse 200 (mkBody ["hel"; ""; "lo "] "world" ReadFailure))
    = "hello ".
Proof.
  split.
  - destruct (relay_delivers (mkNet None (Val sampleResponse) true None)
                sampleResponse) as (_ & H & _).
    by rewrite (H eq_refl).
  - destruct (relay_delivers
                (mkNet None (Val sampleResponse) false (Some 2%nat))
                (mkResponse 200 (mkBody ["hel"; ""; "lo "] "world" ReadFailure)))
      as (H & _).
    by rewrite H.
Defined.

(** ** The in-flight table across a whole request *)

Lemma getWorkloads_counts k w :
  (8 ≤ String.length k)%nat →
  ∃ r w', getWorkloads k w = Ok r w'
          ∧ inFlightRequests (server w') = inFlightRequests (server w)
          ∧ upstream w' = upstream w
          ∧ logLevel w' = logLevel w
          ∧ (fetchCalls w ≤ fetchCalls w')%nat
          ∧ ∀ e, r = Err e → upstream w (fetchCalls w) k = FetchErr e.
Proof.
  destruct w as [[wc ifr tm] lvl up ck fc cr na tr]. simpl.
  intros Hk. unfold getWorkloads. munfold. simpl.
  rewrite updateLastAccess_run. unfold touchedWorld, setLastAccess. simpl.
  destruct (wc !! k) as [c|] eqn:Hc; simpl.
  - rewrite ?deref_run. dsimp.
    destruct (bool_decide (elems (Workloads c) = [])); simpl.
    + unfold fetchWorkloads. simpl. destruct (up fc k) as [ws|e] eqn:Hup.
      * erewrite updateCache_present
          by (simpl; first [apply lookup_insert_eq | done]).
        rewrite startCacheRefresh_run by done.
        eexists _, _. split; [reflexivity|].
        unfold startedWorld, updatedWorld. simpl. rewrite lookup_insert_eq.
        simpl. repeat split; try done; lia.
      * eexists _, _. split; [reflexivity|]. simpl.
        repeat split; try done; try lia; by intros ? [= <-].
    + unfold timeNow. simpl.
      destruct (negb _ || _); simpl.
      * key_ok Hk. unfold fetchWorkloads. simpl. destruct (up fc k) as [ws|e] eqn:Hup.
        -- erewrite updateCache_present
             by (simpl; first [apply lookup_insert_eq | done]).
           eexists _, _. split; [reflexivity|]. simpl.
        repeat split; try done; try lia; by intros ? [= <-].
        -- simpl. eexists _, _. split; [reflexivity|]. simpl.
        repeat split; try done; try lia; by intros ? [= <-].
      * eexists _, _. split; [reflexivity|]. simpl.
        repeat split; try done; try lia; by intros ? [= <-].
  - rewrite startCacheRefresh_run by done. unfold startedWorld. simpl.
    rewrite Hc. unfold fetchWorkloads. simpl. destruct (up fc k) as [ws|e] eqn:Hup.
    + erewrite updateCache_present
        by (simpl; first [apply lookup_insert_eq | done]).
      eexists _, _. split; [reflexivity|]. simpl.
        repeat split; try done; try lia; by intros ? [= <-].
    + eexists _, _. split; [reflexivity|]. simpl.
        repeat split; try done; try lia; by intros ? [= <-].
Qed.

Lemma countOf_fresh_table_any s k k' n :
  inFlightRequests s !! k = None →
  countOf (setInFlightRequests (<[k := ∅]> (inFlightRequests s)) s) k' n
  = countOf s k' n.
Proof.
  intros H. destruct (decide (k' = k)) as [->|Hne].
  - by apply countOf_fresh_table.
  - unfold countOf. simpl. by rewrite lookup_insert_ne.
Qed.

Lemma GetLeastBusyNode_counts k tag w :
  (8 ≤ String.length k)%nat →
  ∃ r w', GetLeastBusyNode k tag w = Ok r w'
          ∧ (∀ k' n, countOf (server w') k' n = countOf (server w) k' n)
          ∧ logLevel w' = logLevel w.
Proof.
  intros Hk.
  assert (Hphase2 : ∀ w1 : World,
    ∃ r w', (RLock requestLock;;
             deferred (RUnlock requestLock) (
               RLock cacheLock;;
               deferred (RUnlock cacheLock) (
                 s ← getS;
                 match candidateNodes s k tag with
                 | Err e => mret (Err e)
                 | Val [] => mret (Err "no active nodes found")
                 | Val nodes =>
                     (if inFlightRequests s !! k is None then
                        RUnlock requestLock;;
                        Lock requestLock;;
                        putS (setInFlightRequests
                                (<[k := ∅]> (inFlightRequests s)) s);;
                        Unlock requestLock;;
                        RLock requestLock
                      else mret tt);;
                     s ← getS;
                     mret (Val (selectLoop s k nodes).1)
                 end))) w1
            = Ok r w'
            ∧ (∀ k' n, countOf (server w') k' n = countOf (server w1) k' n)
            ∧ logLevel w' = logLevel w1).
  { intros w1. munfold. simpl.
    destruct (candidateNodes (server w1) k tag) as [[|n0 nodes]|e]; simpl;
      try (eexists _, _; split; [reflexivity|done]).
    destruct (inFlightRequests (server w1) !! k) eqn:E; simpl.
    - eexists _, _; split; [reflexivity|done].
    - eexists _, _; split; [reflexivity|]. simpl. split; [|done].
      intros k' n. by apply (countOf_fresh_table_any (server w1)). }
  unfold GetLeastBusyNode.
  match type of Hphase2 with
  | ∀ w1, ∃ r w', ?p w1 = _ ∧ _ => set (phase2 := p) in *
  end.
  unfold mbind, M_bind, mret, M_ret, getS, RLock, RUnlock, emit. simpl.
  destruct (match workloadCache (server w) !! k with
            | Some cache => existsb isRunning (elems (Workloads cache))
            | None => false
            end) eqn:Hrun.
  - match goal with
    | |- ∃ r w', phase2 ?w1 = _ ∧ _ =>
        destruct (Hphase2 w1) as (r & w' & Hrun2 & Hcount & Hlvl)
    end.
    exists r, w'. done.
  - key_ok Hk. unfold mret, M_ret. simpl.
    rewrite forceRefreshWorkloads_run by done.
    pose proof (forcedWorld_counts k
                  (mkWorld (server w) (logLevel w) (upstream w) (clock w)
                     (fetchCalls w) (clockReads w) (nextAddr w)
                     (EvRUnlock cacheLock :: EvRLock cacheLock :: trace w)))
      as Hforced.
    assert (Hlvl0 : logLevel (forcedWorld k
                  (mkWorld (server w) (logLevel w) (upstream w) (clock w)
                     (fetchCalls w) (clockReads w) (nextAddr w)
                     (EvRUnlock cacheLock :: EvRLock cacheLock :: trace w)))
                    = logLevel w).
    { unfold forcedWorld, startedWorld, updatedWorld. simpl.
      destruct (upstream w (fetchCalls w) k); [|done].
      destruct (workloadCache (server w) !! k) eqn:E; simpl; rewrite ?E; done. }
    simpl in Hforced.
    destruct (forcedResult k _) as [ws|e].
    + match goal with
      | |- ∃ r w', phase2 ?w1 = _ ∧ _ =>
          destruct (Hphase2 w1) as (r & w' & Hrun2 & Hcount & Hlvl)
      end.
      exists r, w'. split; [done|]. split.
      * intros k' n. rewrite Hcount. unfold countOf. by rewrite Hforced.
      * by rewrite Hlvl.
    + eexists _, _. split; [reflexivity|]. split; [|done].
      intros k' n. unfold countOf. by rewrite Hforced.
Qed.

Lemma HandleProxyRequest_counts net r node k w :
  0 ≤ countOf (server w) k node < GoInt.maxInt →
  ∃ reply w', HandleProxyRequest net r node k w = Ok reply w'
              ∧ ∀ k' n, countOf (server w') k' n = countOf (server w) k' n.
Proof.
  intros Hc. destruct (newRequestErr net) as [err|] eqn:Hb.
  - rewrite (HandleProxyRequest_unbuilt _ _ _ _ _ _ Hb). eauto.
  - rewrite HandleProxyRequest_run by done. eexists _, _.
    split; [reflexivity|]. intros k' n. unfold forwardedWorld.
    rewrite dumpedWorld_server. unfold trackedWorld at 1. simpl.
    rewrite dumpedWorld_server. simpl.
    destruct (decide ((k', n) = (k, node))) as [[= -> ->]|Hne].
    + rewrite !countOf_withCount. by apply trackedCount_bracket.
    + by rewrite !countOf_withCount_ne.
Qed.

(** X10.  Every call of [ProxyHandler], whatever it answers and also when
    it panics on a short credential, leaves every in-flight count as it
    found it, provided the counts of the request's tenant are in
    [0, maxInt): the only adjustments are the +1 and -1 around the forwarded
    call, and no refresh, selection or error path touches a count. *)
Theorem ProxyHandler_restores_counts (net : Net) (r : Request) (w : World) :
  (∀ n, 0 ≤ countOf (server w) (apiKeyOf r) n < GoInt.maxInt) →
  ∀ k n, countOf (server (after (ProxyHandler net r) w)) k n
         = countOf (server w) k n.
Proof.
  intros Hb k n. unfold after, ProxyHandler.
  destruct (bool_decide (Path r = "/") && bool_decide (Method r = "GET"));
    [done|].
  destruct (bool_decide (apiKeyOf r = "")); [done|].
  set (key := apiKeyOf r) in *.
  unfold mbind at 1 2, M_bind at 1 2. rewrite updateLastAccess_run.
  assert (Ht : inFlightRequests (server (touchedWorld key w))
               = inFlightRequests (server w))
    by (unfold touchedWorld; by destruct (workloadCache (server w) !! key)).
  destruct (decide (8 ≤ String.length key)%nat) as [Hk|Hk].
  2:{ unfold keyPrefix8. replace (String.length key <? 8)%nat with true
        by (symmetry; apply Nat.ltb_lt; lia).
      simpl. unfold countOf. by rewrite Ht. }
  key_ok Hk. unfold mret at 1, M_ret at 1.
  destruct (getWorkloads_counts key (touchedWorld key w) Hk)
    as (res & w2 & Hget & Hc2 & _ & _ & _ & _).
  assert (Hsame2 : ∀ k' n', countOf (server w2) k' n' = countOf (server w) k' n')
    by (intros; unfold countOf; by rewrite Hc2, Ht).
  destruct (bool_decide (Path r = "/workloads")).
  { unfold mbind, M_bind. rewrite Hget. destruct res; apply Hsame2. }
  unfold mbind at 1, M_bind at 1. rewrite Hget.
  destruct res as [ws|e]; [|apply Hsame2].
  destruct (SplitN (TrimPrefix (Path r) "/") slash 3) as [|part0 parts];
    [apply Hsame2|].
  destruct (bool_decide (part0 = "tags")).
  - destruct parts as [|tag rest]; [apply Hsame2|].
    destruct (GetLeastBusyNode_counts key tag w2 Hk)
      as (sel & w3 & Hsel & Hc3 & _).
    unfold mbind, M_bind. rewrite Hsel.
    destruct sel as [node|e]; [|simpl; by rewrite Hc3].
    destruct (HandleProxyRequest_counts net
                (setPath match rest with
                         | [] => "/"
                         | part2 :: _ => "/" +:+ part2
                         end r) node key w3)
      as (reply & w4 & Hfw & Hc4).
    { rewrite Hc3, Hsame2. apply Hb. }
    rewrite Hfw. simpl. by rewrite Hc4, Hc3.
  - destruct (Atoi part0) as [index|]; [|apply Hsame2].
    unfold mbind at 1, M_bind at 1.
    rewrite forceRefreshWorkloads_run by done.
    assert (Hsame3 : ∀ k' n', countOf (server (forcedWorld key w2)) k' n'
                              = countOf (server w) k' n')
      by (intros; unfold countOf; rewrite forcedWorld_counts; apply Hsame2).
    destruct (forcedResult key w2) as [workloads|e]; [|apply Hsame3].
    destruct (bool_decide (runningWorkloadsOf workloads = [])).
    { munfold. apply Hsame3. }
    destruct (if (index <? 0)
                 || (Z.of_nat (length (runningWorkloadsOf workloads)) <=? index)
              then None
              else runningWorkloadsOf workloads !! Z.to_nat index)
      as [selected|]; [|apply Hsame3].
    destruct (HandleProxyRequest_counts net
                (setPath match parts with
                         | [] => "/"
                         | _ :: _ => "/" +:+ Join parts "/"
                         end r) (Node selected) key (forcedWorld key w2))
      as (reply & w4 & Hfw & Hc4).
    { rewrite Hsame3. apply Hb. }
    rewrite Hfw. simpl. by rewrite Hc4.
Qed.

Lemma ProxyHandler_restores_counts_witness :
  let net := mkNet None (Err "dial tcp: connection refused") true None in
  let w := after (TrackRequest tenant "node-b" 1)
             (startWorld (upstreamOf (Some [wlA; wlB])) tickingClock) in
  let w' := after (ProxyHandler net (sampleRequest "/tags/t/v1/chat")) w in
  calls (trace w')
  = [EvTrack tenant "node-a" (-1); EvDo "POST" "https://node-a/v1/chat";
     EvTrack tenant "node-a" 1; EvGo tenant 0; EvTrack tenant "node-b" 1]
  ∧ countOf (server w') tenant "node-a" = 0
  ∧ countOf (server w') tenant "node-b" = 1.
Proof.
  intros net w w'.
  assert (Hb : ∀ n, 0 ≤ countOf (server w)
                          (apiKeyOf (sampleRequest "/tags/t/v1/chat")) n
                    < GoInt.maxInt).
  { intros n. change (apiKeyOf (sampleRequest "/tags/t/v1/chat")) with tenant.
    unfold w, after. rewrite TrackRequest_run. simpl.
    destruct (decide (n = "node-b")) as [->|Hne].
    - rewrite countOf_withCount. by vm_compute.
    - rewrite countOf_withCount_ne by congruence. by vm_compute. }
  pose proof (ProxyHandler_restores_counts net
                (sampleRequest "/tags/t/v1/chat") w Hb) as H.
  split; [vm_compute; reflexivity|]. split.
  - unfold w'. rewrite H. by vm_compute.
  - unfold w'. rewrite H. by vm_compute.
Defined.

(** ** Routing by tag and malformed paths *)

Lemma SplitN_tags tag tail :
  cut slash tag = None →
  SplitN ("tags" +:+ String slash (tag +:+ tailOf tail)) slash 3
  = "tags" :: tag :: match tail with Some rest => [rest] | None => [] end.
Proof.
  intros H.
  change (SplitN ?s slash 3)
    with (match cut slash s with
          | Some (a, b) => a :: SplitN b slash 2
          | None => [s]
          end).
  rewrite cut_append by (by vm_compute).
  change (SplitN ?s slash 2)
    with (match cut slash s with
          | Some (a, b) => a :: SplitN b slash 1
          | None => [s]
          end).
  destruct tail as [rest|]; unfold tailOf.
  - by rewrite cut_append.
  - by rewrite append_nil_r, H.
Qed.

(** X11.  A request with a credential of at least 8 bytes whose path is
    [/tags/tag] or [/tags/tag/rest] is routed by tag: when the workload
    list cannot be obtained the reply is 500 with the error of the failed
    fetch; otherwise the node is the one [GetLeastBusyNode] selects for
    [tag], a selection error is answered 404 with the error's text, and a
    selected node receives the request through [HandleProxyRequest] with
    the path set to [/rest] ([/] when there is no remainder). *)
Theorem ProxyHandler_tag_routing (net : Net) (r : Request) (w : World)
  (tag : string) (tail : option string) :
  (8 ≤ String.length (apiKeyOf r))%nat →
  Path r = "/tags/" +:+ tag +:+ tailOf tail →
  cut slash tag = None →
  ∃ res w2,
    getWorkloads (apiKeyOf r) (touchedWorld (apiKeyOf r) w) = Ok res w2
    ∧ match res with
      | Err e =>
          ProxyHandler net r w = Ok (httpError e StatusInternalServerError) w2
          ∧ upstream w (fetchCalls w) (apiKeyOf r) = FetchErr e
      | Val _ =>
          ∃ sel w3,
            GetLeastBusyNode (apiKeyOf r) tag w2 = Ok sel w3
            ∧ ProxyHandler net r w
              = match sel with
                | Err e => Ok (httpError e StatusNotFound) w3
                | Val node =>
                    HandleProxyRequest net
                      (setPath ("/" +:+ default "" tail) r) node
                      (apiKeyOf r) w3
                end
      end.
Proof.
  intros Hk Hpath Hcut.
  change ("/tags/" +:+ tag +:+ tailOf tail)
    with (String slash ("tags" +:+ String slash (tag +:+ tailOf tail)))
    in Hpath.
  assert (Hkey : apiKeyOf r ≠ EmptyString)
    by (intros E; rewrite E in Hk; simpl in Hk; lia).
  destruct (touchedWorld_fetch (apiKeyOf r) w) as [Hu1 Hf1].
  destruct (getWorkloads_counts (apiKeyOf r) (touchedWorld (apiKeyOf r) w) Hk)
    as (res & w2 & Hget & _ & _ & _ & _ & Herr).
  exists res, w2. split; [done|].
  assert (Hrun : ProxyHandler net r w
    = match res with
      | Err err => Ok (httpError err StatusInternalServerError) w2
      | Val _ =>
          (sel ← GetLeastBusyNode (apiKeyOf r) tag;
           match sel with
           | Err err => mret (httpError err StatusNotFound)
           | Val node =>
               HandleProxyRequest net (setPath ("/" +:+ default "" tail) r)
                 node (apiKeyOf r)
           end) w2
      end).
  { unfold ProxyHandler. rewrite Hpath.
    rewrite (bool_decide_eq_false_2 (String slash _ = "/")) by (by intros [=]).
    cbn [andb]. rewrite (bool_decide_eq_false_2 _ Hkey).
    rewrite (bool_decide_eq_false_2 (String slash _ = "/workloads"))
      by (by intros [=]).
    rewrite TrimPrefix_slash, (SplitN_tags _ _ Hcut).
    rewrite bool_decide_eq_true_2 by done.
    unfold mbind at 1 2 3. unfold M_bind at 1 2 3.
    rewrite updateLastAccess_run. key_ok Hk. unfold mret at 1, M_ret at 1.
    rewrite Hget. destruct res as [ws|e]; [|done].
    by destruct tail. }
  destruct res as [ws|e].
  - destruct (GetLeastBusyNode_counts (apiKeyOf r) tag w2 Hk)
      as (sel & w3 & Hsel & _).
    exists sel, w3. split; [done|]. rewrite Hrun.
    unfold mbind, M_bind. rewrite Hsel. by destruct sel.
  - split; [done|]. rewrite <- Hu1, <- Hf1. by apply Herr.
Qed.

Lemma ProxyHandler_tag_routing_witness :
  let net := mkNet None (Val sampleResponse) true None in
  let w := startWorld (upstreamOf (Some [wlA; wlB])) tickingClock in
  let r := sampleRequest "/tags/t/v1/chat" in
  (8 ≤ String.length (apiKeyOf r))%nat
  ∧ ∃ res w2,
      getWorkloads (apiKeyOf r) (touchedWorld (apiKeyOf r) w) = Ok res w2
      ∧ match res with
        | Err e =>
            ProxyHandler net r w
            = Ok (httpError e StatusInternalServerError) w2
            ∧ upstream w (fetchCalls w) (apiKeyOf r) = FetchErr e
        | Val _ =>
            ∃ sel w3,
              GetLeastBusyNode (apiKeyOf r) "t" w2 = Ok sel w3
              ∧ ProxyHandler net r w
                = match sel with
                  | Err e => Ok (httpError e StatusNotFound) w3
                  | Val node =>
                      HandleProxyRequest net (setPath "/v1/chat" r) node
                        (apiKeyOf r) w3
                  end
        end.
Proof.
  intros net w r.
  assert (Hk : (8 ≤ String.length (apiKeyOf r))%nat) by (vm_compute; lia).
  split; [exact Hk|].
  exact (ProxyHandler_tag_routing net r w "t" (Some "v1/chat") Hk
           eq_refl eq_refl).
Defined.

Lemma SplitN_segment seg tail :
  cut slash seg = None →
  ∃ rest, SplitN (seg +:+ tailOf tail) slash 3 = seg :: rest
          ∧ (tail = None → rest = []).
Proof.
  intros H.
  change (SplitN ?s slash 3)
    with (match cut slash s with
          | Some (a, b) => a :: SplitN b slash 2
          | None => [s]
          end).
  destruct tail as [t|]; unfold tailOf.
  - rewrite cut_append by done. by eexists.
  - rewrite append_nil_r, H. by eexists.
Qed.

(** X12.  Malformed paths.  A request with a credential of at least 8
    bytes that is neither the health check nor [/workloads], and whose
    first path segment is [tags] with nothing after it, or is neither
    [tags] nor a decimal integer that fits an int, is answered 400 (with
    the text for a missing tag, respectively for an invalid index) unless
    obtaining the workload list failed, in which case it is answered 500
    with the error of the failed fetch.  Either way the in-flight table is
    left as it was. *)
Theorem ProxyHandler_bad_request (net : Net) (r : Request) (w : World)
  (seg : string) (tail : option string) :
  (8 ≤ String.length (apiKeyOf r))%nat →
  Path r = "/" +:+ seg +:+ tailOf tail →
  cut slash seg = None →
  (Path r = "/" → Method r ≠ "GET") →
  Path r ≠ "/workloads" →
  (seg = "tags" ∧ tail = None) ∨ (seg ≠ "tags" ∧ Atoi seg = None) →
  ∃ reply w',
    ProxyHandler net r w = Ok reply w'
    ∧ (reply = httpError (if bool_decide (seg = "tags")
                          then "Missing tag. Use /tags/{tag}"
                          else "Invalid workload index. Must be a number")
                 StatusBadRequest
       ∨ ∃ e, upstream w (fetchCalls w) (apiKeyOf r) = FetchErr e
              ∧ reply = httpError e StatusInternalServerError)
    ∧ inFlightRequests (server w') = inFlightRequests (server w).
Proof.
  intros Hk Hpath Hcut Hhealth Hlist Hseg.
  change ("/" +:+ seg +:+ tailOf tail)
    with (String slash (seg +:+ tailOf tail)) in Hpath.
  assert (Hkey : apiKeyOf r ≠ EmptyString)
    by (intros E; rewrite E in Hk; simpl in Hk; lia).
  destruct (touchedWorld_fetch (apiKeyOf r) w) as [Hu1 Hf1].
  destruct (getWorkloads_counts (apiKeyOf r) (touchedWorld (apiKeyOf r) w) Hk)
    as (res & w2 & Hget & Hc2 & _ & _ & _ & Herr).
  assert (Hc1 : inFlightRequests (server (touchedWorld (apiKeyOf r) w))
                = inFlightRequests (server w))
    by (unfold touchedWorld; by destruct (_ !! _)).
  destruct (SplitN_segment seg tail Hcut) as (rest & Hsplit & Hrest).
  assert (Hh : bool_decide (Path r = "/") && bool_decide (Method r = "GET")
               = false).
  { apply andb_false_iff.
    destruct (decide (Path r = "/")) as [E|E];
      [right; apply bool_decide_eq_false_2; auto
      |left; by apply bool_decide_eq_false_2]. }
  unfold ProxyHandler. rewrite Hh.
  rewrite (bool_decide_eq_false_2 _ Hkey).
  rewrite (bool_decide_eq_false_2 _ Hlist).
  rewrite Hpath, TrimPrefix_slash, Hsplit.
  unfold mbind at 1 2 3. unfold M_bind at 1 2 3.
  rewrite updateLastAccess_run. key_ok Hk. unfold mret at 1, M_ret at 1.
  rewrite Hget. destruct res as [ws|e].
  - destruct Hseg as [[-> ->]|[Hne Hat]].
    + rewrite (Hrest eq_refl), !bool_decide_eq_true_2 by done.
      eexists _, _. split; [reflexivity|]. split; [by left|congruence].
    + rewrite !(bool_decide_eq_false_2 _ Hne), Hat.
      eexists _, _. split; [reflexivity|]. split; [by left|congruence].
  - eexists _, _. split; [reflexivity|]. split; [|congruence].
    right. exists e. split; [|done]. rewrite <- Hu1, <- Hf1. by apply Herr.
Qed.

Lemma ProxyHandler_bad_request_witness :
  let net := mkNet None (Val sampleResponse) true None in
  let w := startWorld (upstreamOf (Some [wlA; wlB])) tickingClock in
  let r := sampleRequest "/workloads/9223372036854775808" in
  Atoi "workloads" = None
  ∧ (∃ w', ProxyHandler net r w
           = Ok (httpError "Invalid workload index. Must be a number" 400) w'
           ∧ inFlightRequests (server w') = inFlightRequests (server w))
  ∧ (∃ w', ProxyHandler net (sampleRequest "/tags") w
           = Ok (httpError "Missing tag. Use /tags/{tag}" 400) w')
  ∧ ∃ w', ProxyHandler net (sampleRequest "/") w
          = Ok (httpError "Invalid workload index. Must be a number" 400) w'.
Proof.
  intros net w r.
  assert (Hk : (8 ≤ String.length tenant)%nat) by (vm_compute; lia).
  assert (Hup : ∀ e, upstream w (fetchCalls w) tenant ≠ FetchErr e)
    by (intros e; vm_compute; discriminate).
  split; [reflexivity|]. split; [|split].
  - assert (H1 : Path r = "/" → Method r ≠ "GET") by (intros _; discriminate).
    assert (H2 : Path r ≠ "/workloads") by discriminate.
    assert (H3 : ("workloads" = "tags" ∧ Some "9223372036854775808" = None)
                 ∨ ("workloads" ≠ "tags" ∧ Atoi "workloads" = None))
      by (right; split; [discriminate|reflexivity]).
    destruct (ProxyHandler_bad_request net r w "workloads"
                (Some "9223372036854775808") Hk eq_refl eq_refl H1 H2 H3)
      as (reply & w' & Hrun & [Hr|(e & He & _)] & Hc).
    + exists w'. split; [|exact Hc]. rewrite Hrun, Hr. reflexivity.
    + destruct (Hup e He).
  - assert (H1 : Path (sampleRequest "/tags") = "/"
                 → Method (sampleRequest "/tags") ≠ "GET")
      by (intros _; discriminate).
    assert (H2 : Path (sampleRequest "/tags") ≠ "/workloads") by discriminate.
    assert (H3 : ("tags" = "tags" ∧ @None string = None)
                 ∨ ("tags" ≠ "tags" ∧ Atoi "tags" = None))
      by (left; split; reflexivity).
    destruct (ProxyHandler_bad_request net (sampleRequest "/tags") w "tags"
                None Hk eq_refl eq_refl H1 H2 H3)
      as (reply & w' & Hrun & [Hr|(e & He & _)] & Hc).
    + exists w'. rewrite Hrun, Hr. reflexivity.
    + destruct (Hup e He).
  - assert (H1 : Path (sampleRequest "/") = "/"
                 → Method (sampleRequest "/") ≠ "GET")
      by (intros _; discriminate).
    assert (H2 : Path (sampleRequest "/") ≠ "/workloads") by discriminate.
    assert (H3 : (EmptyString = "tags" ∧ @None string = None)
                 ∨ (EmptyString ≠ "tags" ∧ Atoi EmptyString = None))
      by (right; split; [discriminate|reflexivity]).
    destruct (ProxyHandler_bad_request net (sampleRequest "/") w EmptyString
                None Hk eq_refl eq_refl H1 H2 H3)
      as (reply & w' & Hrun & [Hr|(e & He & _)] & Hc).
    + exists w'. rewrite Hrun, Hr. reflexivity.
    + destruct (Hup e He).
Defined.

(** ** Shutdown *)

Lemma closeStopRefresh_run k w :
  (8 ≤ String.length k)%nat →
  (∀ c, workloadCache (server w) !! k = Some c → StopRefresh c ≠ Some true) →
  closeStopRefresh k w
  = Ok tt (setServer (setWorkloadCache
                        (alter closed k (workloadCache (server w)))
                        (server w)) w).
Proof.
  destruct w as [[wc ifr tm] lvl up ck fc cr na tr]. simpl.
  intros Hk Hopen. unfold closeStopRefresh. key_ok Hk. munfold. simpl.
  assert (Hsame : ∀ m : gmap string WorkloadCache,
            m = wc → Ok tt (mkWorld (mkServer wc ifr tm) lvl up ck fc cr na tr)
                     = Ok tt (mkWorld (mkServer m ifr tm) lvl up ck fc cr na tr))
    by (by intros ? ->).
  destruct (wc !! k) as [c|] eqn:Hc.
  - specialize (Hopen c eq_refl). destruct c as [ws lf la [[|]|] a]; simpl.
    + done.
    + unfold storeCache. munfold. simpl. do 3 f_equal.
      apply map_eq. intros k'. destruct (decide (k' = k)) as [->|Hne].
      * by rewrite lookup_insert_eq, lookup_alter_eq, Hc.
      * by rewrite lookup_insert_ne, lookup_alter_ne.
    + apply Hsame. apply map_eq. intros k'.
      destruct (decide (k' = k)) as [->|Hne].
      * by rewrite lookup_alter_eq, Hc.
      * by rewrite lookup_alter_ne.
  - apply Hsame. apply map_eq. intros k'.
    destruct (decide (k' = k)) as [->|Hne].
    + by rewrite lookup_alter_eq, Hc.
    + by rewrite lookup_alter_ne.
Qed.

Lemma closeAll_run order : ∀ w,
  NoDup order →
  (∀ k c, k ∈ order → workloadCache (server w) !! k = Some c →
          (8 ≤ String.length k)%nat ∧ StopRefresh c ≠ Some true) →
  (∀ k, k ∈ order → workloadCache (server w) !! k = None →
        (8 ≤ String.length k)%nat) →
  ∃ m, closeAll order w
       = Ok tt (setServer (setWorkloadCache m (server w)) w)
       ∧ ∀ k, m !! k = if decide (k ∈ order)
                       then closed <$> workloadCache (server w) !! k
                       else workloadCache (server w) !! k.
Proof.
  induction order as [|k0 rest IH]; intros w Hnd Hopen Hlen.
  - exists (workloadCache (server w)). split.
    + by destruct w as [[wc ifr tm] lvl up ck fc cr na tr].
    + intros k. rewrite decide_False; [done|]. by intros ?%elem_of_nil.
  - apply NoDup_cons in Hnd as [Hnotin Hnd].
    assert (Hk0 : (8 ≤ String.length k0)%nat).
    { destruct (workloadCache (server w) !! k0) as [c|] eqn:Hc.
      - apply (Hopen k0 c); [left|done].
      - apply Hlen; [left|done]. }
    cbn [closeAll foldr]. unfold mbind at 1, M_bind at 1.
    rewrite closeStopRefresh_run; [|done|].
    2:{ intros c Hc. apply (Hopen k0 c); [left|done]. }
    fold (closeAll rest).
    set (w1 := setServer _ w).
    assert (Hw1 : ∀ k, k ∈ rest →
              workloadCache (server w1) !! k = workloadCache (server w) !! k).
    { intros k Hin. destruct w as [[wc ifr tm] lvl up ck fc cr na tr].
      simpl. apply lookup_alter_ne. by intros ->. }
    destruct (IH w1 Hnd) as (m & Hrun & Hm).
    { intros k c Hin. rewrite (Hw1 k Hin). apply Hopen. by right. }
    { intros k Hin. rewrite (Hw1 k Hin). apply Hlen. by right. }
    exists m. split.
    + rewrite Hrun. by destruct w as [[wc ifr tm] lvl up ck fc cr na tr].
    + intros k. rewrite Hm.
      destruct (decide (k = k0)) as [->|Hne].
      * rewrite (decide_False (P := k0 ∈ rest)) by done.
        rewrite (decide_True (P := k0 ∈ k0 :: rest)) by left.
        destruct w as [[wc ifr tm] lvl up ck fc cr na tr]. simpl.
        by rewrite lookup_alter_eq.
      * destruct (decide (k ∈ rest)) as [Hin|Hout].
        -- rewrite (decide_True (P := k ∈ k0 :: rest)) by (by right).
           by rewrite (Hw1 k Hin).
        -- rewrite (decide_False (P := k ∈ k0 :: rest))
             by (intros [?|?]%elem_of_cons; done).
           destruct w as [[wc ifr tm] lvl up ck fc cr na tr]. simpl.
           by rewrite lookup_alter_ne.
Qed.

Lemma closeStopRefresh_frame k k' w :
  k' ≠ k →
  workloadCache (server (world_of (closeStopRefresh k w))) !! k'
  = workloadCache (server w) !! k'.
Proof.
  destruct w as [[wc ifr tm] lvl up ck fc cr na tr]. intros Hne.
  unfold closeStopRefresh, keyPrefix8.
  destruct (String.length k <? 8)%nat; [done|]. munfold. simpl.
  destruct (wc !! k) as [[ws lf la [[|]|] a]|]; try done.
  unfold storeCache. munfold. simpl. by rewrite lookup_insert_ne.
Qed.

Lemma closeAll_panics order : ∀ w k c,
  k ∈ order →
  workloadCache (server w) !! k = Some c →
  StopRefresh c = Some true →
  ∃ w', closeAll order w = Panic w'.
Proof.
  induction order as [|k0 rest IH]; intros w k c Hin Hc Hclosed.
  - by apply elem_of_nil in Hin.
  - cbn [closeAll foldr]. fold (closeAll rest).
    unfold mbind, M_bind.
    destruct (closeStopRefresh k0 w) as [[] w1|w1] eqn:Hrun; [|by eexists].
    destruct (decide (k = k0)) as [->|Hne].
    + exfalso. revert Hrun.
      destruct w as [[wc ifr tm] lvl up ck fc cr na tr]. simpl in Hc.
      unfold closeStopRefresh, keyPrefix8.
      destruct (String.length k0 <? 8)%nat; [done|]. munfold. simpl.
      rewrite Hc, Hclosed. done.
    + apply elem_of_cons in Hin as [?|Hin]; [done|].
      apply (IH w1 k c Hin); [|done].
      pose proof (closeStopRefresh_frame k0 k w Hne) as Hf.
      rewrite Hrun in Hf. simpl in Hf. by rewrite Hf.
Qed.

(** X13.  [Cleanup] on a registry whose keys have at least 8 bytes and
    whose stop channels are all open, the range visiting the keys in any
    order without repetition: it returns with the registry lock taken and
    released once, every stop channel closed and nothing else changed.
    The result does not depend on the order.  A second [Cleanup] panics
    when an entry has a stop channel, which is then closed twice. *)
Theorem Cleanup_closes_channels (order : list string) (w : World) :
  NoDup order →
  (∀ k, k ∈ order ↔ is_Some (workloadCache (server w) !! k)) →
  (∀ k c, workloadCache (server w) !! k = Some c →
          (8 ≤ String.length k)%nat ∧ StopRefresh c ≠ Some true) →
  ∃ w',
    Cleanup order w = Ok tt w'
    ∧ workloadCache (server w') = closed <$> workloadCache (server w)
    ∧ inFlightRequests (server w') = inFlightRequests (server w)
    ∧ tagMappings (server w') = tagMappings (server w)
    ∧ trace w' = EvUnlock cacheLock :: EvLock cacheLock :: trace w
    ∧ ((∃ k c, workloadCache (server w) !! k = Some c
               ∧ StopRefresh c ≠ None) →
       ∀ order', (∀ k, k ∈ order' ↔ is_Some (workloadCache (server w) !! k)) →
                 ∃ w'', Cleanup order' w' = Panic w'').
Proof.
  intros Hnd Hdom Hopen.
  set (w0 := world_of (Lock cacheLock w)).
  assert (Hs0 : server w0 = server w) by done.
  destruct (closeAll_run order w0 Hnd) as (m & Hrun & Hm).
  { intros k c _. rewrite Hs0. apply Hopen. }
  { intros k Hin. rewrite Hs0. intros Hnone.
    apply Hdom in Hin as [c Hc]. congruence. }
  assert (Hmap : m = closed <$> workloadCache (server w)).
  { apply map_eq. intros k. rewrite Hm, Hs0, lookup_fmap.
    destruct (decide (k ∈ order)) as [Hin|Hout]; [done|].
    destruct (workloadCache (server w) !! k) as [c|] eqn:Hc; [|done].
    exfalso. apply Hout, Hdom. by eexists. }
  set (w1 := world_of (Unlock cacheLock
                         (setServer (setWorkloadCache m (server w0)) w0))).
  exists w1. split; [|split; [|split; [|split; [|split]]]].
  - unfold Cleanup. unfold mbind at 1, M_bind at 1.
    change (Lock cacheLock w) with (Ok tt w0).
    unfold deferred. fold (closeAll order). rewrite Hrun. reflexivity.
  - simpl. by rewrite Hmap.
  - reflexivity.
  - reflexivity.
  - reflexivity.
  - intros (k & c & Hc & Hchan) order' Hdom'.
    set (w2 := world_of (Lock cacheLock w1)).
    destruct (closeAll_panics order' w2 k (closed c)) as [w3 Hpanic].
    + apply Hdom'. by eexists.
    + simpl. by rewrite Hmap, lookup_fmap, Hc.
    + unfold closed. simpl. by destruct (StopRefresh c).
    + unfold Cleanup. unfold mbind at 1, M_bind at 1.
      change (Lock cacheLock w1) with (Ok tt w2).
      unfold deferred. fold (closeAll order'). rewrite Hpanic. by eexists.
Qed.

Lemma Cleanup_closes_channels_witness :
  let w := after (getWorkloads "tenant-0002")
             (after (getWorkloads tenant)
                (startWorld (upstreamOf (Some [wlA; wlB])) tickingClock)) in
  ∃ w', Cleanup ["tenant-0002"; tenant] w = Ok tt w'
        ∧ StopRefresh <$> workloadCache (server w)
          = {[ tenant := Some false; "tenant-0002" := Some false ]}
        ∧ StopRefresh <$> workloadCache (server w')
          = {[ tenant := Some true; "tenant-0002" := Some true ]}
        ∧ (∃ w'', Cleanup [tenant; "tenant-0002"] w' = Panic w'').
Proof.
  intros w.
  assert (Hreg : StopRefresh <$> workloadCache (server w)
                 = {[ tenant := Some false; "tenant-0002" := Some false ]})
    by (by vm_compute).
  clearbody w.
  assert (Hdom : ∀ order, order ≡ₚ ["tenant-0002"; tenant] →
            ∀ k, k ∈ order ↔ is_Some (workloadCache (server w) !! k)).
  { intros order Hp k. rewrite Hp.
    rewrite <- (fmap_is_Some StopRefresh), <- lookup_fmap, Hreg.
    rewrite !elem_of_cons, elem_of_nil.
    destruct (decide (k = tenant)) as [->|H1];
      [rewrite lookup_insert_eq; split; [eauto|by right; left]|].
    rewrite lookup_insert_ne by done.
    destruct (decide (k = "tenant-0002")) as [->|H2];
      [rewrite lookup_singleton_eq; split; [eauto|by left]|].
    rewrite lookup_singleton_ne by done.
    split; [by intros [?|[?|[]]]|by intros [? ?]]. }
  destruct (Cleanup_closes_channels ["tenant-0002"; tenant] w)
    as (w' & Hrun & Hclosed & _ & _ & _ & Htwice).
  - apply NoDup_cons. split; [by intros [=]%list_elem_of_singleton|].
    apply NoDup_singleton.
  - by apply Hdom.
  - intros k c Hc.
    assert (Hs : (StopRefresh <$> workloadCache (server w)) !! k
                 = Some (StopRefresh c)) by (by rewrite lookup_fmap, Hc).
    rewrite Hreg in Hs.
    destruct (decide (k = tenant)) as [->|H1].
    { rewrite lookup_insert_eq in Hs. injection Hs as <-.
      split; [vm_compute; lia|done]. }
    rewrite lookup_insert_ne in Hs by done.
    destruct (decide (k = "tenant-0002")) as [->|H2].
    { rewrite lookup_singleton_eq in Hs. injection Hs as <-.
      split; [vm_compute; lia|done]. }
    by rewrite lookup_singleton_ne in Hs.
  - exists w'. split; [exact Hrun|]. split; [exact Hreg|]. split.
    + rewrite Hclosed, <- map_fmap_compose.
      change (StopRefresh ∘ closed)
        with (λ c, match StopRefresh c with
                   | Some _ => Some true
                   | None => None
                   end).
      rewrite (map_fmap_compose StopRefresh
                 (λ o : option bool, match o with
                                     | Some _ => Some true
                                     | None => None
                                     end)), Hreg.
      by vm_compute.
    + apply Htwice.
      * assert (Hs : (StopRefresh <$> workloadCache (server w)) !! tenant
                     = Some (Some false))
          by (by rewrite Hreg, lookup_insert_eq).
        rewrite lookup_fmap in Hs.
        destruct (workloadCache (server w) !! tenant) as [c|] eqn:Hc; [|done].
        exists tenant, c. split; [done|]. injection Hs as Hs. by rewrite Hs.
      * apply Hdom. apply Permutation_swap.
Defined.

(** ** Copying headers *)

Lemma appended_app o a b : appended (appended o a) b = appended o (a ++ b).
Proof.
  destruct a as [|x a]; [done|]. destruct b as [|y b].
  - by rewrite app_nil_r.
  - simpl. by rewrite <- app_assoc.
Qed.

Lemma Header_Add_all canon k vv : ∀ dst key,
  foldl (λ dst v, Header_Add canon dst k v) dst vv !! key
  = if decide (canon k = key) then appended (dst !! key) vv else dst !! key.
Proof.
  induction vv as [|v vv IH]; intros dst key; simpl.
  - by destruct (decide _).
  - rewrite IH. unfold Header_Add. destruct (decide (canon k = key)) as [<-|Hne].
    + rewrite lookup_insert_eq.
      change (Some (default [] (dst !! canon k) ++ [v]))
        with (appended (dst !! canon k) [v]).
      by rewrite appended_app.
    + by rewrite lookup_insert_ne.
Qed.

(** X14.  [copyHeader] only adds: under every name the destination keeps
    the values it had, followed by the values of the source headers whose
    canonical name it is, in the order the range visits them; a source
    header named exactly [Origin] is left out when [STRIP_ORIGIN] is
    exactly [true]; a name under which nothing is added stays absent if
    it was absent. *)
Theorem copyHeader_appends (canon : string → string) (STRIP_ORIGIN : string)
  (order : list string) (dst src : gmap string (list string)) (key : string) :
  copyHeader canon STRIP_ORIGIN order dst src !! key
  = appended (dst !! key) (copied canon STRIP_ORIGIN order src key).
Proof.
  unfold copyHeader, copied. revert dst.
  induction order as [|k order IH]; intros dst; [done|].
  cbn [foldl]. rewrite IH. rewrite filter_cons.
  destruct (bool_decide (STRIP_ORIGIN = "true") && bool_decide (k = "Origin"))
    eqn:Hskip.
  - apply andb_true_iff in Hskip as [H1%bool_decide_eq_true H2%bool_decide_eq_true].
    rewrite decide_False; [done|]. intros [_ Hn]. by apply Hn.
  - assert (Hkeep : ¬ (STRIP_ORIGIN = "true" ∧ k = "Origin")).
    { intros [H1 H2]. apply andb_false_iff in Hskip as [H|H];
        apply bool_decide_eq_false in H; done. }
    rewrite Header_Add_all. destruct (decide (canon k = key)) as [Hc|Hc].
    + rewrite decide_True by done. cbn [map concat].
      by rewrite appended_app.
    + rewrite decide_False by (by intros [? _]). done.
Qed.

(** X15.  Copying into an empty header set from headers whose names are
    canonical, each visited once: the copy has exactly the source's
    headers that have at least one value, with the same values, except
    that it has no [Origin] when [STRIP_ORIGIN] is [true]; any other
    value of [STRIP_ORIGIN] strips nothing. *)
Theorem copyHeader_copies (canon : string → string) (STRIP_ORIGIN : string)
  (order : list string) (src : gmap string (list string)) (key : string) :
  NoDup order →
  (∀ k, k ∈ order ↔ is_Some (src !! k)) →
  (∀ k, k ∈ order → canon k = k) →
  copyHeader canon STRIP_ORIGIN order ∅ src !! key
  = if bool_decide (STRIP_ORIGIN = "true") && bool_decide (key = "Origin")
    then None
    else match src !! key with
         | Some (v :: vs) => Some (v :: vs)
         | _ => None
         end.
Proof.
  intros Hnd Hdom Hcanon. rewrite copyHeader_appends, lookup_empty.
  assert (Hfilter : ∀ l : list string, NoDup l → (∀ k, k ∈ l → canon k = k) →
    filter (λ k, canon k = key ∧ ¬ (STRIP_ORIGIN = "true" ∧ k = "Origin")) l
    = if decide (key ∈ l ∧ ¬ (STRIP_ORIGIN = "true" ∧ key = "Origin"))
      then [key] else []).
  { induction l as [|k l IH]; intros Hl Hc.
    - rewrite decide_False; [done|]. by intros [?%elem_of_nil _].
    - apply NoDup_cons in Hl as [Hnotin Hl]. rewrite filter_cons.
      rewrite IH by (done || (intros; apply Hc; by right)).
      assert (Hk : canon k = k) by (apply Hc; left).
      clear IH Hc Hl Hdom Hcanon Hnd.
      destruct (decide (k = key)) as [->|Hne];
        repeat case_decide; try done; exfalso;
        rewrite ?elem_of_cons in *; intuition congruence. }
  unfold copied. rewrite (Hfilter order Hnd Hcanon).
  destruct (bool_decide (STRIP_ORIGIN = "true") && bool_decide (key = "Origin"))
    eqn:Hskip.
  - apply andb_true_iff in Hskip as [H1%bool_decide_eq_true H2%bool_decide_eq_true].
    rewrite decide_False; [done|]. intros [_ Hn]. by apply Hn.
  - assert (Hkeep : ¬ (STRIP_ORIGIN = "true" ∧ key = "Origin")).
    { intros [H1 H2]. apply andb_false_iff in Hskip as [H|H];
        apply bool_decide_eq_false in H; done. }
    destruct (src !! key) as [vv|] eqn:Hsrc.
    + rewrite decide_True by (split; [apply Hdom; by eexists|done]).
      cbn [map concat]. rewrite Hsrc, app_nil_r. by destruct vv.
    + rewrite decide_False; [done|]. intros [Hin _].
      apply Hdom in Hin as [? ?]. congruence.
Qed.

Lemma copyHeader_copies_witness :
  let src : gmap string (list string) :=
    {[ "Origin" := ["https://a.example"]; "Accept" := ["text/html"; "*/*"];
       "X-Empty" := [] ]} in
  let order := ["X-Empty"; "Origin"; "Accept"] in
  copyHeader id "true" order ∅ src = {[ "Accept" := ["text/html"; "*/*"] ]}
  ∧ copyHeader id "TRUE" order ∅ src
    = {[ "Origin" := ["https://a.example"]; "Accept" := ["text/html"; "*/*"] ]}.
Proof.
  intros src order.
  assert (Hnd : NoDup order)
    by (apply (bool_decide_unpack (NoDup order)); by vm_compute).
  assert (Hdom : ∀ k, k ∈ order ↔ is_Some (src !! k)).
  { intros k. unfold order, src. rewrite !elem_of_cons, elem_of_nil.
    destruct (decide (k = "Origin")) as [->|H1];
      [rewrite lookup_insert_eq; split; [eauto|by right; left]|].
    rewrite lookup_insert_ne by done.
    destruct (decide (k = "Accept")) as [->|H2];
      [rewrite lookup_insert_eq; split; [eauto|by right; right; left]|].
    rewrite lookup_insert_ne by done.
    destruct (decide (k = "X-Empty")) as [->|H3];
      [rewrite lookup_singleton_eq; split; [eauto|by left]|].
    rewrite lookup_singleton_ne by done.
    split; [by intros [?|[?|[?|[]]]]|by intros [? ?]]. }
  split; apply map_eq; intros key.
  - rewrite (copyHeader_copies id "true" order src key Hnd Hdom (λ _ _, eq_refl)).
    rewrite bool_decide_eq_true_2 by done. cbn [andb].
    destruct (decide (key = "Origin")) as [->|H1].
    { rewrite bool_decide_eq_true_2 by done. by rewrite lookup_singleton_ne. }
    rewrite bool_decide_eq_false_2 by done. unfold src.
    rewrite lookup_insert_ne by done.
    destruct (decide (key = "Accept")) as [->|H2].
    { by rewrite lookup_insert_eq, lookup_singleton_eq. }
    rewrite lookup_insert_ne, (lookup_singleton_ne "Accept") by done.
    destruct (decide (key = "X-Empty")) as [->|H3].
    { by rewrite lookup_singleton_eq. }
    by rewrite lookup_singleton_ne.
  - rewrite (copyHeader_copies id "TRUE" order src key Hnd Hdom (λ _ _, eq_refl)).
    rewrite (bool_decide_eq_false_2 ("TRUE" = "true")) by done. cbn [andb].
    unfold src.
    destruct (decide (key = "Origin")) as [->|H1].
    { by rewrite !lookup_insert_eq. }
    rewrite !(lookup_insert_ne _ "Origin") by done.
    destruct (decide (key = "Accept")) as [->|H2].
    { by rewrite lookup_insert_eq, lookup_singleton_eq. }
    rewrite lookup_insert_ne, (lookup_singleton_ne "Accept") by done.
    destruct (decide (key = "X-Empty")) as [->|H3].
    { by rewrite lookup_singleton_eq. }
    by rewrite lookup_singleton_ne.
Defined.

(** ** The tag index agrees with the registry *)

Lemma consistent_same s s' :
  workloadCache s' = workloadCache s → tagMappings s' = tagMappings s →
  consistent s → consistent s'.
Proof. intros Hc Ht H k t. rewrite Hc, Ht. apply H. Qed.

Lemma consistent_touch k c c' wc ifr tm :
  wc !! k = Some c → Workloads c' = Workloads c →
  consistent (mkServer wc ifr tm) →
  consistent (mkServer (<[k := c']> wc) ifr tm).
Proof.
  intros Hk Hw H k' t Hl. destruct (H k' t Hl) as (c0 & Hc0 & ->).
  simpl in *. destruct (decide (k' = k)) as [->|Hne].
  - rewrite lookup_insert_eq. exists c'. split; [done|]. rewrite Hw. congruence.
  - rewrite lookup_insert_ne by done. eauto.
Qed.

Lemma consistent_create k c' wc ifr tm :
  wc !! k = None →
  consistent (mkServer wc ifr tm) →
  consistent (mkServer (<[k := c']> wc) ifr tm).
Proof.
  intros Hk H k' t Hl. destruct (H k' t Hl) as (c0 & Hc0 & ->).
  simpl in *. destruct (decide (k' = k)) as [->|Hne]; [congruence|].
  rewrite lookup_insert_ne by done. eauto.
Qed.

Lemma consistent_update k c' tagMap wc ifr tm :
  tagMap = (scanWorkloads (elems (Workloads c'))).2 →
  consistent (mkServer wc ifr tm) →
  consistent (mkServer (<[k := c']> wc) ifr (<[k := tagMap]> tm)).
Proof.
  intros -> H k' t. simpl. destruct (decide (k' = k)) as [->|Hne].
  - rewrite !lookup_insert_eq. intros [= <-]. eauto.
  - rewrite !lookup_insert_ne by done. apply H.
Qed.

Lemma consistent_delete k wc ifr tm :
  consistent (mkServer wc ifr tm) →
  consistent (mkServer (delete k wc) ifr (delete k tm)).
Proof.
  intros H k' t. simpl. destruct (decide (k' = k)) as [->|Hne].
  - by rewrite lookup_delete_eq.
  - rewrite !lookup_delete_ne by done. apply H.
Qed.

Section Keeps.
Context {A B : Type}.

Lemma still_keeps (m : M A) : still m → keeps m.
Proof.
  intros Hs w H. destruct (Hs w) as [Hc Ht]. by eapply consistent_same.
Qed.

Lemma keeps_bind (m : M A) (f : A → M B) :
  keeps m → (∀ a, keeps (f a)) → keeps (m ≫= f).
Proof.
  intros Hm Hf w H. unfold mbind, M_bind. specialize (Hm w H).
  destruct (m w) as [a w'|w']; [|done]. by apply Hf.
Qed.

Lemma keeps_deferred (d : M unit) (body : M A) :
  keeps body → keeps d → keeps (deferred d body).
Proof.
  intros Hb Hd w H. unfold deferred. specialize (Hb w H).
  destruct (body w) as [a w'|w']; specialize (Hd w' Hb);
    by destruct (d w').
Qed.

Lemma keeps_read (f : ProxyServer → M A) :
  (∀ s, keeps (f s)) → keeps (getS ≫= f).
Proof. intros Hf w H. by apply Hf. Qed.

Lemma still_bind (m : M A) (f : A → M B) :
  still m → (∀ a, still (f a)) → still (m ≫= f).
Proof.
  intros Hm Hf w. unfold mbind, M_bind. specialize (Hm w).
  destruct (m w) as [a w'|w']; [|done].
  destruct (Hf a w') as [H1 H2]. simpl in Hm. destruct Hm as [H3 H4].
  split; congruence.
Qed.

Lemma still_deferred (d : M unit) (body : M A) :
  still body → still d → still (deferred d body).
Proof.
  intros Hb Hd w. unfold deferred. specialize (Hb w).
  destruct (body w) as [a w'|w']; specialize (Hd w');
    destruct (d w'); simpl in *; destruct Hb, Hd; split; congruence.
Qed.

Lemma still_ret (a : A) : still (mret a).
Proof. by intros w. Qed.

Lemma still_panic : still (@panic A).
Proof. by intros w. Qed.

Lemma still_read (f : ProxyServer → M A) :
  (∀ s, still (f s)) → still (getS ≫= f).
Proof. intros Hf w. apply Hf. Qed.

End Keeps.

Lemma still_emit e : still (emit e).
Proof. by intros w. Qed.

Lemma still_Lock l : still (Lock l).
Proof. by intros w. Qed.

Lemma still_Unlock l : still (Unlock l).
Proof. by intros w. Qed.

Lemma still_RLock l : still (RLock l).
Proof. by intros w. Qed.

Lemma still_RUnlock l : still (RUnlock l).
Proof. by intros w. Qed.

Lemma still_timeNow : still timeNow.
Proof. by intros w. Qed.

Lemma still_freshAddr : still freshAddr.
Proof. by intros w. Qed.

Lemma still_getLogLevel : still getLogLevel.
Proof. by intros w. Qed.

Lemma still_keyPrefix8 k : still (keyPrefix8 k).
Proof. intros w. unfold keyPrefix8. by destruct (_ <? _)%nat. Qed.

Lemma still_fetchWorkloads k : still (fetchWorkloads k).
Proof. by intros w. Qed.

Lemma still_deref k c : still (deref k c).
Proof. by intros w. Qed.

Lemma still_inflight (f : ProxyServer → gmap string (gmap string Z)) :
  still (s ← getS; putS (setInFlightRequests (f s) s)).
Proof. by intros w. Qed.

Lemma still_storeCount k n v : still (storeCount k n v).
Proof. by intros w. Qed.

Create HintDb still.
#[local] Hint Resolve still_ret still_panic still_emit still_Lock still_Unlock
  still_RLock still_RUnlock still_timeNow still_freshAddr still_getLogLevel
  still_keyPrefix8 still_fetchWorkloads still_deref still_inflight
  still_storeCount : still.

Ltac still_go :=
  lazymatch goal with
  | |- still (mbind _ getS) =>
      first [solve [eauto with still nocore]
            | apply still_read; intros; still_go]
  | |- still (mbind _ _) => eapply still_bind; [still_go | intros; still_go]
  | |- still (deferred _ _) => apply still_deferred; still_go
  | |- still (if ?c then _ else _) => destruct c; still_go
  | |- still (match ?c with _ => _ end) => destruct c; still_go
  | |- _ => solve [eauto with still nocore]
  end.

Lemma still_TrackRequest k n d : still (TrackRequest k n d).
Proof.
  intros [[wc ifr tm] lvl up ck fc cr na tr].
  unfold TrackRequest, countOf. munfold. simpl.
  destruct (ifr !! k); simpl;
    repeat (match goal with
            | |- context [if ?c then _ else _] => destruct c
            end; simpl); done.
Qed.

Lemma still_DumpInFlightRequests : still DumpInFlightRequests.
Proof. unfold DumpInFlightRequests. still_go. Qed.

#[local] Hint Resolve still_TrackRequest still_DumpInFlightRequests : still.

Lemma still_dumpIfDebug : still dumpIfDebug.
Proof. unfold dumpIfDebug. still_go. Qed.

#[local] Hint Resolve still_dumpIfDebug : still.

Lemma still_HandleProxyRequest net r node k :
  still (HandleProxyRequest net r node k).
Proof. unfold HandleProxyRequest. still_go. Qed.

Lemma keeps_updateLastAccess k : keeps (updateLastAccess k).
Proof.
  intros [[wc ifr tm] lvl up ck fc cr na tr] H.
  rewrite updateLastAccess_run. unfold touchedWorld. simpl in *.
  destruct (wc !! k) as [c|] eqn:Hc; [|done]. simpl.
  by apply (consistent_touch k c).
Qed.

Lemma keeps_startCacheRefresh k : keeps (startCacheRefresh k).
Proof.
  intros [[wc ifr tm] lvl up ck fc cr na tr] H.
  unfold startCacheRefresh, timeNow, freshAddr, keyPrefix8. munfold. simpl.
  destruct (wc !! k) as [c|] eqn:Hc; simpl.
  - destruct (StopRefresh c); simpl;
      destruct (String.length k <? 8)%nat; simpl;
      by apply (consistent_touch k c).
  - destruct (String.length k <? 8)%nat; simpl;
      by apply consistent_create.
Qed.

Lemma keeps_updateCache k ws : keeps (updateCache k ws).
Proof.
  intros [[wc ifr tm] lvl up ck fc cr na tr] H.
  unfold updateCache, timeNow, keyPrefix8. munfold. simpl.
  destruct (wc !! k) as [c|] eqn:Hc; simpl; [|done].
  destruct (scanWorkloads (elems ws)) as [[newNodes runningCount] tagMap]
    eqn:Hscan.
  repeat (match goal with
          | |- context [if ?c then _ else _] => destruct c
          | |- context [match Workloads c with _ => _ end] =>
              destruct (Workloads c)
          end; simpl); try done;
    (apply consistent_update; [simpl; by rewrite Hscan|done]).
Qed.

Lemma keeps_closeStopRefresh k : keeps (closeStopRefresh k).
Proof.
  intros [[wc ifr tm] lvl up ck fc cr na tr] H.
  unfold closeStopRefresh, keyPrefix8. munfold. simpl.
  destruct (String.length k <? 8)%nat; simpl; [done|].
  destruct (wc !! k) as [c|] eqn:Hc; simpl; [|done].
  destruct (StopRefresh c) as [[|]|]; simpl; try done.
  by apply (consistent_touch k c).
Qed.

Lemma keeps_evict {A : Type} k (cache : WorkloadCache) (rest : M A) :
  keeps rest →
  keeps (s ← getS;
         match workloadCache s !! k with
         | Some currentCache =>
             if decide (addr currentCache = addr cache) then
               putS (setTagMappings (delete k (tagMappings s))
                       (setWorkloadCache (delete k (workloadCache s)) s))
             else mret tt
         | None => mret tt
         end;;
         rest).
Proof.
  intros Hrest [[wc ifr tm] lvl up ck fc cr na tr] H. munfold. simpl.
  destruct (wc !! k) as [c|]; [|by apply Hrest].
  destruct (decide _); [|by apply Hrest]. simpl. apply Hrest. simpl.
  by apply consistent_delete.
Qed.

Create HintDb keeps.

Ltac keeps_go :=
  cbv zeta;
  first
    [ solve [eauto with keeps nocore]
    | solve [apply still_keeps; eauto with still nocore]
    | lazymatch goal with
      | |- keeps (mbind _ getS) =>
          first [apply keeps_evict; keeps_go
                | apply keeps_read; intros; keeps_go]
      | |- keeps (mbind _ _) =>
          eapply keeps_bind; [keeps_go | intros; keeps_go]
      | |- keeps (deferred _ _) => apply keeps_deferred; keeps_go
      | |- keeps (if ?c then _ else _) => destruct c; keeps_go
      | |- keeps (match ?c with _ => _ end) => destruct c; keeps_go
      end ].

#[local] Hint Resolve keeps_updateLastAccess keeps_startCacheRefresh
  keeps_updateCache keeps_closeStopRefresh : keeps.

Lemma keeps_refreshIteration k : keeps (refreshIteration k).
Proof. unfold refreshIteration. keeps_go. Qed.

Lemma keeps_getWorkloads k : keeps (getWorkloads k).
Proof. unfold getWorkloads. keeps_go. Qed.

Lemma keeps_forceRefreshWorkloads k : keeps (forceRefreshWorkloads k).
Proof. unfold forceRefreshWorkloads. keeps_go. Qed.

#[local] Hint Resolve keeps_getWorkloads keeps_forceRefreshWorkloads : keeps.

Lemma still_selection k tag :
  still (RLock requestLock;;
         deferred (RUnlock requestLock) (
           RLock cacheLock;;
           deferred (RUnlock cacheLock) (
             s ← getS;
             match candidateNodes s k tag with
             | Err e => mret (Err e)
             | Val [] => mret (Err "no active nodes found")
             | Val nodes =>
                 (if inFlightRequests s !! k is None then
                    RUnlock requestLock;;
                    Lock requestLock;;
                    putS (setInFlightRequests
                            (<[k := ∅]> (inFlightRequests s)) s);;
                    Unlock requestLock;;
                    RLock requestLock
                  else mret tt);;
                 s ← getS;
                 mret (Val (selectLoop s k nodes).1)
             end))).
Proof.
  intros [[wc ifr tm] lvl up ck fc cr na tr]. munfold. simpl.
  destruct (candidateNodes _ k tag) as [[|n nodes]|e]; try done.
  by destruct (ifr !! k).
Qed.

#[local] Hint Resolve still_selection : still.

Lemma keeps_GetLeastBusyNode k tag : keeps (GetLeastBusyNode k tag).
Proof. unfold GetLeastBusyNode. keeps_go. Qed.

Lemma keeps_HandleProxyRequest net r node k :
  keeps (HandleProxyRequest net r node k).
Proof. apply still_keeps, still_HandleProxyRequest. Qed.

#[local] Hint Resolve keeps_GetLeastBusyNode keeps_HandleProxyRequest : keeps.

Lemma keeps_ProxyHandler net r : keeps (ProxyHandler net r).
Proof. unfold ProxyHandler. keeps_go. Qed.

Lemma keeps_Cleanup order : keeps (Cleanup order).
Proof.
  unfold Cleanup. eapply keeps_bind; [apply still_keeps; still_go|].
  intros _. apply keeps_deferred; [|apply still_keeps; still_go].
  induction order as [|k order IH]; simpl; [apply still_keeps; still_go|].
  eapply keeps_bind; [apply keeps_closeStopRefresh|]. intros _. exact IH.
Qed.

Lemma keeps_TrackRequest k n d : keeps (TrackRequest k n d).
Proof. apply still_keeps, still_TrackRequest. Qed.

Lemma perform_keeps acts : ∀ w,
  consistent (server w) → consistent (server (foldl perform w acts)).
Proof.
  induction acts as [|a acts IH]; intros w H; [done|].
  simpl. apply IH. destruct a as [net r|k|order]; simpl; unfold after.
  - by apply keeps_ProxyHandler.
  - by apply keeps_refreshIteration.
  - by apply keeps_Cleanup.
Qed.

(** X16.  Through any sequence of served requests, refresh passes and
    shutdowns from start-up, whether they return or panic, the tag index
    agrees with the registry: a tenant in the tag index has a registry
    entry, and its index is the one computed from the workload list that
    entry stores.  So the candidates [GetLeastBusyNode] finds for a tag
    other than [all] are the nodes of the running workloads of the stored
    list that carry the tag. *)
Theorem tag_index_agrees (up : nat → string → FetchResult) (ck : nat → Z)
  (acts : list Activity) :
  let s := server (history up ck acts) in
  consistent s
  ∧ ∀ apiKey tag nodes,
      tag ≠ "all" →
      candidateNodes s apiKey tag = Val nodes →
      ∃ cache, workloadCache s !! apiKey = Some cache
               ∧ nodes = nodesTagged (elems (Workloads cache)) tag.
Proof.
  intros s.
  assert (H : consistent s).
  { apply perform_keeps. intros k t. simpl. by rewrite lookup_empty. }
  split; [exact H|]. intros k tag nodes Htag. unfold candidateNodes.
  rewrite bool_decide_eq_false_2 by done.
  destruct (tagMappings s !! k) as [t|] eqn:Ht; [|done].
  destruct (H k t Ht) as (c & Hc & ->). exists c. split; [done|].
  destruct (scanWorkloads_spec (elems (Workloads c))) as (_ & _ & Hb).
  rewrite Hb in *. destruct (nodesTagged _ tag); [done|]. congruence.
Qed.

Lemma tag_index_agrees_witness :
  let net := mkNet None (Val sampleResponse) true None in
  let s := server (history (upstreamOf (Some [wlA; wlStopped; wlB]))
                     tickingClock
                     [Serve net (sampleRequest "/tags/t/v1");
                      RefreshPass tenant;
                      Serve net (sampleRequest "/0");
                      Shutdown [tenant]]) in
  candidateNodes s tenant "t" = Val ["node-a"; "node-b"]
  ∧ ∃ cache, workloadCache s !! tenant = Some cache
             ∧ ["node-a"; "node-b"]
               = nodesTagged (elems (Workloads cache)) "t".
Proof.
  intros net s.
  assert (Hc : candidateNodes s tenant "t" = Val ["node-a"; "node-b"])
    by (vm_compute; reflexivity).
  split; [exact Hc|].
  assert (Ht : "t" ≠ "all") by discriminate.
  exact (proj2 (tag_index_agrees
                  (upstreamOf (Some [wlA; wlStopped; wlB])) tickingClock
                  [Serve net (sampleRequest "/tags/t/v1");
                   RefreshPass tenant;
                   Serve net (sampleRequest "/0");
                   Shutdown [tenant]])
               tenant "t" ["node-a"; "node-b"] Ht Hc).
Defined.
